(** * scan-build: the [beye] orchestration front end and the deduplicator

    A shallow embedding of [src/analyzer/beye.py] and of
    [duplicate_check] from [src/libscanbuild/__init__.py], with the
    properties of the orchestration engine stated over it.

    Python values are a small sum type, dictionaries are insertion-ordered
    association lists (their iteration order is observable), exceptions
    are an explicit result type, and the file system, the logging sink and
    the external collaborators are threaded through a state-and-exception
    monad. *)

From Stdlib Require Import ZArith String Ascii List Permutation DecimalString.
From stdpp Require Import base option list strings gmap.

Local Open Scope Z_scope.

(** ** Python values and exceptions *)

Inductive pyval : Type :=
| PNone
| PBool (b : bool)
| PInt (z : Z)
| PStr (s : string)
| PList (l : list string).

#[global] Instance pyval_eq_dec : EqDecision pyval.
Proof. solve_decision. Defined.

(** The ways a file-system call fails here.  [IOError] is [OSError]. *)
Inductive os_errno : Type :=
  EEXIST | ENOENT | ENOTDIR | ENOTEMPTY | EISDIR | EBADF.

Inductive exn : Type :=
| KeyError (k : string)
| TypeError
| OSError (errno : os_errno) (p : string)
| ValueError
| CalledProcessError
| SystemExit (code : Z).

Inductive outcome (A : Type) : Type :=
| Ok (a : A)
| Raise (e : exn).
Arguments Ok {A} a.
Arguments Raise {A} e.

Definition obind {A B} (m : outcome A) (k : A → outcome B) : outcome B :=
  match m with
  | Ok a => k a
  | Raise e => Raise e
  end.

Notation "'let!' x ':=' m 'in' k" := (obind m (fun x => k))
  (at level 10, x name, m at level 100, k at level 200, only parsing).

(** [v is None] *)
Definition is_none (v : pyval) : bool :=
  match v with PNone => true | _ => false end.

(** Truth value of an object, as [if v:] takes it. *)
Definition py_truthy (v : pyval) : bool :=
  match v with
  | PNone => false
  | PBool b => b
  | PInt z => negb (z =? 0)
  | PStr s => negb (String.eqb s "")
  | PList l => match l with [] => false | _ => true end
  end.

(** ['lit' == v] for a string literal. *)
Definition py_eq_str (lit : string) (v : pyval) : bool :=
  match v with PStr s => String.eqb lit s | _ => false end.

(** [2 <= v]: integers and booleans compare, anything else is a
    [TypeError] (Python 3). *)
Definition py_le_int (n : Z) (v : pyval) : outcome bool :=
  match v with
  | PInt z => Ok (n <=? z)
  | PBool b => Ok (n <=? (if b then 1 else 0))
  | _ => Raise TypeError
  end.

Definition chars (s : string) : list string :=
  map (fun c => String c EmptyString) (list_ascii_of_string s).

(** The elements a [for] loop or [functools.reduce] visits. *)
Definition py_elements (v : pyval) : list pyval :=
  match v with
  | PList l => map PStr l
  | PStr s => map PStr (chars s)
  | _ => []
  end.

Definition py_iterable (v : pyval) : bool :=
  match v with PList _ | PStr _ => true | _ => false end.

Definition py_iter (v : pyval) : outcome (list pyval) :=
  if py_iterable v then Ok (py_elements v) else Raise TypeError.

Definition str_of_Z (z : Z) : string := NilZero.string_of_int (Z.to_int z).

(** ** Dictionaries *)

(** A [dict] keeps its keys in insertion order; keys are unique. *)
Definition pydict : Type := list (string * pyval).

Fixpoint dict_get (k : string) (d : pydict) : option pyval :=
  match d with
  | [] => None
  | (k', v) :: d' => if String.eqb k k' then Some v else dict_get k d'
  end.

(** [k in d] *)
Definition dict_in (k : string) (d : pydict) : bool :=
  match dict_get k d with Some _ => true | None => false end.

(** [d[k]] *)
Definition dict_item (k : string) (d : pydict) : outcome pyval :=
  match dict_get k d with Some v => Ok v | None => Raise (KeyError k) end.

(** [d[k] = v]: an existing key keeps its position. *)
Fixpoint dict_set (k : string) (v : pyval) (d : pydict) : pydict :=
  match d with
  | [] => [(k, v)]
  | (k', v') :: d' =>
      if String.eqb k k' then (k, v) :: d' else (k', v') :: dict_set k v d'
  end.

Definition keys (d : pydict) : list string := map fst d.

(** ** The argument translator *)

Section Translator.

(** [str] of a list of strings; its quoting rules play no part in what
    follows, so the rendering is left open. *)
Variable repr_list : list string → string.

(** [str(v)], also what ['{0}'.format(v)] inserts. *)
Definition py_str (v : pyval) : string :=
  match v with
  | PNone => "None"
  | PBool true => "True"
  | PBool false => "False"
  | PInt z => str_of_Z z
  | PStr s => s
  | PList l => repr_list l
  end.

(** [{k: v for k, v in args.items() if v is not None}] *)
Definition not_none_items (args : pydict) : pydict :=
  fold_left
    (fun d kv => if is_none (snd kv) then d else dict_set (fst kv) (snd kv) d)
    args [].

(** [functools.reduce(lambda acc, x: acc + [flag, x], it, acc)] *)
Definition reduce_pairs (flag : string) (it : pyval) (acc : list pyval)
  : outcome (list pyval) :=
  let! xs := py_iter it in
  Ok (fold_left (fun acc x => acc ++ [PStr flag; x]) xs acc).

Definition parameters_from_command_line (args : pydict)
  : outcome (list pyval) :=
  let opts := not_none_items args in
  let result := [] in
  let! result :=
    if dict_in "store_model" opts then
      let! v := dict_item "store_model" opts in
      Ok (result ++ [PStr ("-analyzer-store=" +:+ py_str v)])
    else Ok result in
  let! result :=
    if dict_in "constraints_model" opts then
      let! v := dict_item "constraints_model" opts in
      Ok (result ++ [PStr ("-analyzer-constraints=" +:+ py_str v)])
    else Ok result in
  let! result :=
    if dict_in "internal_stats" opts then
      Ok (result ++ [PStr "-analyzer-stats"])
    else Ok result in
  let! result :=
    if dict_in "analyze_headers" opts then
      Ok (result ++ [PStr "-analyzer-opt-analyze-headers"])
    else Ok result in
  let! result :=
    if dict_in "stats" opts then
      Ok (result ++ [PStr "-analyzer-checker=debug.Stats"])
    else Ok result in
  let! result :=
    if dict_in "maxloop" opts then
      let! v := dict_item "maxloop" opts in
      Ok (result ++ [PStr "-analyzer-max-loop"; PStr (py_str v)])
    else Ok result in
  let! result :=
    if dict_in "output_format" opts then
      let! v := dict_item "output_format" opts in
      Ok (result ++ [PStr ("-analyzer-output=" +:+ py_str v)])
    else Ok result in
  let! result :=
    if dict_in "analyzer_config" opts then
      let! v := dict_item "analyzer_config" opts in
      Ok (result ++ [v])
    else Ok result in
  let! result :=
    if dict_in "verbose" opts then
      let! v := dict_item "verbose" opts in
      let! c := py_le_int 2 v in
      if c then Ok (result ++ [PStr "-analyzer-display-progress"])
      else Ok result
    else Ok result in
  let! result :=
    if dict_in "plugins" opts then
      let! v := dict_item "plugins" opts in
      reduce_pairs "-load" v result
    else Ok result in
  let! result :=
    if dict_in "enable_checker" opts then
      let! v := dict_item "enable_checker" opts in
      reduce_pairs "-analyzer-checker" v result
    else Ok result in
  let! result :=
    if dict_in "disable_checker" opts then
      let! v := dict_item "disable_checker" opts in
      reduce_pairs "-analyzer-disable-checker" v result
    else Ok result in
  let! result :=
    if dict_in "ubiviz" opts then
      Ok (result ++ [PStr "-analyzer-viz-egraph-ubigraph"])
    else Ok result in
  Ok (fold_left (fun acc x => acc ++ [PStr "-Xclang"; x]) result []).

End Translator.

(** ** Command line

    [parse_command_line] builds an [argparse] parser and returns the
    namespace dictionary.  The command line is taken after tokenisation:
    one constructor per option the parser declares, carrying the
    option's argument where it has one. *)

Inductive cli_option : Type :=
| OptInput (file : string)
| OptOutput (path : string)
| OptSequential
| OptStatusBugs
| OptHtmlTitle (title : string)
| OptAnalyzeHeaders
| OptPlist
| OptPlistHtml
| OptVerbose
| OptKeepEmpty
| OptNoFailureReports
| OptStats
| OptInternalStats
| OptMaxloop (count : Z)
| OptStore (model : string)
| OptConstraints (model : string)
| OptUseAnalyzer (path : string)
| OptAnalyzerConfig (options : string)
| OptLoadPlugin (plugin : string)
| OptEnableChecker (checker : string)
| OptDisableChecker (checker : string).

(** Every destination with its declared default (or [None]), in the
    order the arguments are added. *)
Definition defaults : pydict :=
  [ ("input", PStr "compile_commands.json");
    ("output", PStr "/tmp");
    ("sequential", PBool false);
    ("status_bugs", PBool false);
    ("html_title", PNone);
    ("analyze_headers", PBool false);
    ("output_format", PStr "html");
    ("verbose", PInt 0);
    ("keep_empty", PBool false);
    ("report_failures", PBool true);
    ("stats", PBool false);
    ("internal_stats", PBool false);
    ("maxloop", PInt 4);
    ("store_model", PStr "region");
    ("constraints_model", PStr "range");
    ("clang", PStr "clang");
    ("analyzer_config", PNone);
    ("plugins", PNone);
    ("enable_checker", PNone);
    ("disable_checker", PNone) ].

(** The member of the mutually exclusive format group seen so far. *)
Inductive format_flag : Type := FPlist | FPlistHtml.

Record parser_state : Type := {
  namespace : pydict;
  format_seen : option format_flag
}.

(** [action='count'] *)
Definition count_action (v : option pyval) : pyval :=
  match v with
  | Some (PInt z) => PInt (z + 1)
  | _ => PInt 1
  end.

(** [action='append'] *)
Definition append_action (v : option pyval) (x : string) : pyval :=
  match v with
  | Some (PList l) => PList (l ++ [x])
  | _ => PList [x]
  end.

Definition store (k : string) (v : pyval) (st : parser_state)
  : outcome parser_state :=
  Ok {| namespace := dict_set k v (namespace st);
        format_seen := format_seen st |}.

(** [parser.error] leaves with status 2. *)
Definition parser_error {A} : outcome A := Raise (SystemExit 2).

Definition store_choice (k : string) (choices : list string) (v : string)
    (st : parser_state) : outcome parser_state :=
  if existsb (String.eqb v) choices then store k (PStr v) st
  else parser_error.

Definition store_format (f : format_flag) (const : string)
    (st : parser_state) : outcome parser_state :=
  match format_seen st, f with
  | Some FPlist, FPlistHtml | Some FPlistHtml, FPlist => parser_error
  | _, _ =>
      Ok {| namespace := dict_set "output_format" (PStr const) (namespace st);
            format_seen := Some f |}
  end.

Definition apply_option (o : cli_option) (st : parser_state)
  : outcome parser_state :=
  match o with
  | OptInput f => store "input" (PStr f) st
  | OptOutput p => store "output" (PStr p) st
  | OptSequential => store "sequential" (PBool true) st
  | OptStatusBugs => store "status_bugs" (PBool true) st
  | OptHtmlTitle t => store "html_title" (PStr t) st
  | OptAnalyzeHeaders => store "analyze_headers" (PBool true) st
  | OptPlist => store_format FPlist "plist" st
  | OptPlistHtml => store_format FPlistHtml "plist-html" st
  | OptVerbose =>
      store "verbose" (count_action (dict_get "verbose" (namespace st))) st
  | OptKeepEmpty => store "keep_empty" (PBool true) st
  | OptNoFailureReports => store "report_failures" (PBool false) st
  | OptStats => store "stats" (PBool true) st
  | OptInternalStats => store "internal_stats" (PBool true) st
  | OptMaxloop n => store "maxloop" (PInt n) st
  | OptStore m => store_choice "store_model" ["region"; "basic"] m st
  | OptConstraints m =>
      store_choice "constraints_model" ["range"; "basic"] m st
  | OptUseAnalyzer p => store "clang" (PStr p) st
  | OptAnalyzerConfig s => store "analyzer_config" (PStr s) st
  | OptLoadPlugin p =>
      store "plugins" (append_action (dict_get "plugins" (namespace st)) p) st
  | OptEnableChecker c =>
      store "enable_checker"
        (append_action (dict_get "enable_checker" (namespace st)) c) st
  | OptDisableChecker c =>
      store "disable_checker"
        (append_action (dict_get "disable_checker" (namespace st)) c) st
  end.

Fixpoint parse_args (argv : list cli_option) (st : parser_state)
  : outcome parser_state :=
  match argv with
  | [] => Ok st
  | o :: argv' =>
      let! st' := apply_option o st in
      parse_args argv' st'
  end.

(** [parser.parse_args().__dict__] *)
Definition parse_command_line (argv : list cli_option) : outcome pydict :=
  let! st := parse_args argv {| namespace := defaults; format_seen := None |} in
  Ok (namespace st).

(** ** Paths *)

Definition slash : ascii := "/"%char.

(** [s.rstrip('/')] *)
Fixpoint rstrip_slash (s : string) : string :=
  match s with
  | EmptyString => EmptyString
  | String c s' =>
      match rstrip_slash s' with
      | EmptyString =>
          if Ascii.eqb c slash then EmptyString else String c EmptyString
      | r => String c r
      end
  end.

(** [p[:p.rfind('/') + 1]] *)
Fixpoint head_slash (p : string) : string :=
  match p with
  | EmptyString => EmptyString
  | String c p' =>
      match head_slash p' with
      | EmptyString =>
          if Ascii.eqb c slash then String c EmptyString else EmptyString
      | h => String c h
      end
  end.

(** [s == '/' * len(s)] *)
Fixpoint all_slashes (s : string) : bool :=
  match s with
  | EmptyString => true
  | String c s' => Ascii.eqb c slash && all_slashes s'
  end.

(** [os.path.dirname] (posix) *)
Definition dirname (p : string) : string :=
  let head := head_slash p in
  if negb (String.eqb head "") && negb (all_slashes head)
  then rstrip_slash head
  else head.

(** [os.path.basename] (posix): what follows the last slash. *)
Definition basename (p : string) : string :=
  let i := String.length (head_slash p) in
  substring i (String.length p - i) p.

(** [os.path.commonprefix] of two strings: the longest common leading
    run of characters. *)
Fixpoint commonprefix (a b : string) : string :=
  match a, b with
  | String c a', String d b' =>
      if Ascii.eqb c d then String c (commonprefix a' b') else EmptyString
  | _, _ => EmptyString
  end.

(** [os.path.join] of a directory and a relative name. *)
Definition path_join (dir name : string) : string :=
  if String.eqb dir "" then name
  else if String.eqb (rstrip_slash dir) dir then dir +:+ "/" +:+ name
  else dir +:+ name.

(** ** The world: file system, environment, log and trace *)

Record compilation_entry : Type := {
  ce_file : string;
  ce_directory : string;
  ce_command : string
}.

(** A path names a directory or a file; a file either holds a
    compilation database or does not parse as one. *)
Inductive node : Type :=
| Dir
| File (content : option (list compilation_entry)).

(** What one analyzer invocation hands back.  The result is a
    dictionary; an absent key is [None] here. *)
Record analyzer_info : Type := {
  ai_error_output : option (list string);
  ai_exit_code : Z
}.

Record analysis_result : Type := {
  ar_analyzer : option analyzer_info
}.

Record dispatch_params : Type := {
  dp_entry : compilation_entry;
  dp_clang : pyval;
  dp_out_dir : string;
  dp_direct_args : list pyval;
  dp_uname : string
}.

Record report_args : Type := {
  ra_sequential : pyval;
  ra_out_dir : string;
  ra_prefix : string;
  ra_clang : pyval;
  ra_html_title : pyval
}.

Inductive event : Type :=
| EvMkdir (p : string)
| EvRmdir (p : string)
| EvPool (sequential : bool)
| EvDispatch (params : dispatch_params)
| EvReport (ra : report_args).

(** Calls into [logging], with the numeric level of the call. *)
Inductive log_record : Type :=
| LogMsg (level : Z) (msg : string)
| LogArgs (level : Z) (args : pydict).

Definition WARNING : Z := 30.
Definition INFO : Z := 20.
Definition DEBUG : Z := 10.

Record world : Type := {
  fs : gmap string node;
  tempdir : string;            (* [tempfile.gettempdir()] *)
  candidates : list string;    (* the names [tempfile] draws, in order *)
  uname_out : option string;   (* output of [uname -a], if it runs *)
  log_level : Z;
  log : list log_record;
  events : list event
}.

Definition set_fs (f : gmap string node) (w : world) : world :=
  {| fs := f; tempdir := tempdir w; candidates := candidates w;
     uname_out := uname_out w; log_level := log_level w; log := log w;
     events := events w |}.

Definition set_candidates (c : list string) (w : world) : world :=
  {| fs := fs w; tempdir := tempdir w; candidates := c;
     uname_out := uname_out w; log_level := log_level w; log := log w;
     events := events w |}.

Definition set_log_level (l : Z) (w : world) : world :=
  {| fs := fs w; tempdir := tempdir w; candidates := candidates w;
     uname_out := uname_out w; log_level := l; log := log w;
     events := events w |}.

Definition add_log (r : log_record) (w : world) : world :=
  {| fs := fs w; tempdir := tempdir w; candidates := candidates w;
     uname_out := uname_out w; log_level := log_level w;
     log := log w ++ [r]; events := events w |}.

Definition add_event (e : event) (w : world) : world :=
  {| fs := fs w; tempdir := tempdir w; candidates := candidates w;
     uname_out := uname_out w; log_level := log_level w; log := log w;
     events := events w ++ [e] |}.

(** State and exceptions. *)
Definition M (A : Type) : Type := world → outcome A * world.

Definition ret {A} (a : A) : M A := fun w => (Ok a, w).
Definition raise {A} (e : exn) : M A := fun w => (Raise e, w).
Definition lift {A} (o : outcome A) : M A := fun w => (o, w).

Definition bind {A B} (m : M A) (k : A → M B) : M B :=
  fun w =>
    match m w with
    | (Ok a, w') => k a w'
    | (Raise e, w') => (Raise e, w')
    end.

Notation "'let*' x ':=' m 'in' k" := (bind m (fun x => k))
  (at level 10, x name, m at level 100, k at level 200, only parsing).

(** The key under which the file system knows a path: trailing slashes
    do not count, the root is ["/"]. *)
Definition fs_key (p : string) : string :=
  match rstrip_slash p with
  | EmptyString => if String.eqb p "" then "" else "/"
  | k => k
  end.

Definition node_is_dir (n : option node) : bool :=
  match n with Some Dir => true | _ => false end.

(** [os.path.isdir] *)
Definition isdir (f : gmap string node) (p : string) : bool :=
  negb (String.eqb p "") && node_is_dir (f !! fs_key p).

(** [os.path.exists] *)
Definition path_exists (f : gmap string node) (p : string) : bool :=
  negb (String.eqb p "") && bool_decide (is_Some (f !! fs_key p)).

(** The paths directly inside directory [key]. *)
Definition children (f : gmap string node) (key : string) : list string :=
  filter (fun k => dirname k = key ∧ k ≠ key) (map fst (map_to_list f)).

(** [os.listdir] *)
Definition listdir (p : string) : M (list string) :=
  fun w =>
    if isdir (fs w) p then (Ok (map basename (children (fs w) (fs_key p))), w)
    else if path_exists (fs w) p then (Raise (OSError ENOTDIR p), w)
    else (Raise (OSError ENOENT p), w).

(** [os.mkdir]: the path must be free and its parent a directory (a
    bare name is created in the working directory). *)
Definition mkdir (p : string) : M unit :=
  fun w =>
    let key := fs_key p in
    if String.eqb key "" then (Raise (OSError ENOENT p), w)
    else if bool_decide (is_Some (fs w !! key)) then (Raise (OSError EEXIST p), w)
    else if String.eqb (dirname key) "" || isdir (fs w) (dirname key)
    then (Ok tt, add_event (EvMkdir key) (set_fs (<[key := Dir]> (fs w)) w))
    else if path_exists (fs w) (dirname key) then (Raise (OSError ENOTDIR p), w)
    else (Raise (OSError ENOENT p), w).

(** [os.rmdir] *)
Definition rmdir (p : string) : M unit :=
  fun w =>
    let key := fs_key p in
    if negb (isdir (fs w) p) then
      if path_exists (fs w) p then (Raise (OSError ENOTDIR p), w)
      else (Raise (OSError ENOENT p), w)
    else match children (fs w) key with
         | [] => (Ok tt, add_event (EvRmdir key) (set_fs (delete key (fs w)) w))
         | _ => (Raise (OSError ENOTEMPTY p), w)
         end.

(** [tempfile.mkdtemp(prefix=..., suffix=...)]: in the default temporary
    directory, the first drawn name that is free. *)
Fixpoint mkdtemp_from (names : list string) (dir prefix suffix : string)
  : M string :=
  fun w =>
    match names with
    | [] => (Raise (OSError EEXIST dir), set_candidates [] w)
    | n :: names' =>
        let file := path_join dir (prefix +:+ n +:+ suffix) in
        match mkdir file (set_candidates names' w) with
        | (Ok _, w') => (Ok file, w')
        | (Raise (OSError EEXIST _), w') =>
            mkdtemp_from names' dir prefix suffix w'
        | (Raise e, w') => (Raise e, w')
        end
    end.

Definition mkdtemp (prefix suffix : string) : M string :=
  fun w => mkdtemp_from (candidates w) (tempdir w) prefix suffix w.

(** [open(path, 'r')]: the handle is the content [json.load] will read.
    An integer path would name a file descriptor; none is open for
    reading. *)
Definition open_read (path : pyval) : M (option (list compilation_entry)) :=
  fun w =>
    match path with
    | PStr p =>
        if String.eqb p "" then (Raise (OSError ENOENT p), w)
        else match fs w !! fs_key p with
             | Some (File c) => (Ok c, w)
             | Some Dir => (Raise (OSError EISDIR p), w)
             | None => (Raise (OSError ENOENT p), w)
             end
    | PInt _ | PBool _ => (Raise (OSError EBADF ""), w)
    | _ => (Raise TypeError, w)
    end.

Definition json_load (handle : option (list compilation_entry))
  : M (list compilation_entry) :=
  match handle with
  | Some db => ret db
  | None => raise ValueError
  end.

Definition logging (level : Z) (msg : string) : M unit :=
  fun w => (Ok tt, add_log (LogMsg level msg) w).

(** ** [beye] *)

Section Beye.

(** [str] of a list and [str.rstrip()] are left open, as are the two
    collaborators that live in other modules: [analyzer.driver.run], the
    analysis of one entry, and [analyzer.report.generate_report].  Both
    may change the file system; [run] hands back a result or [None],
    [generate_report] the number of bugs or an exception. *)
Variable repr_list : list string → string.
Variable rstrip : string → string.
Variable run :
  dispatch_params → gmap string node → option analysis_result * gmap string node.
Variable generate_report :
  report_args → gmap string node → outcome Z * gmap string node.

(** [n == v] for an integer literal. *)
Definition py_eq_int (n : Z) (v : pyval) : bool :=
  match v with
  | PInt z => n =? z
  | PBool b => n =? (if b then 1 else 0)
  | _ => false
  end.

Definition from_number_to_level (num : pyval) : Z :=
  if py_eq_int 0 num then WARNING
  else if py_eq_int 1 num then INFO
  else if py_eq_int 2 num then DEBUG
  else 5.

(** [opts.get(k)] *)
Definition dict_get_or_none (k : string) (opts : pydict) : pyval :=
  match dict_get k opts with Some v => v | None => PNone end.

Definition needs_report_file (opts : pydict) : bool :=
  let output_format := dict_get_or_none "output_format" opts in
  py_eq_str "html" output_format || py_eq_str "plist-html" output_format.

(** *** The report directory *)

Record ReportDirectory : Type := {
  rd_name : string;
  rd_keep : pyval
}.

Definition ReportDirectory_create (hint : pyval) : M string :=
  if negb (py_eq_str "/tmp" hint) then
    match hint with
    | PStr p => let* _ := mkdir p in ret p
    | _ => raise TypeError
    end
  else mkdtemp "beye-" ".out".

Definition ReportDirectory_init (hint keep : pyval) : M ReportDirectory :=
  let* name := ReportDirectory_create hint in
  ret {| rd_name := name; rd_keep := keep |}.

Definition msg_examine (name : string) : string :=
  "Run 'scan-view " +:+ name +:+ "' to examine bug reports.".
Definition msg_kept (name : string) : string :=
  "Report directory '" +:+ name +:+ "' contans no report, but kept.".
Definition msg_removing (name : string) : string :=
  "Removing directory '" +:+ name +:+ "' because it contains no report.".

Definition ReportDirectory_exit (self : ReportDirectory) : M unit :=
  let* entries := listdir (rd_name self) in
  let* msg :=
    match entries with
    | _ :: _ => ret (msg_examine (rd_name self))
    | [] =>
        if py_truthy (rd_keep self) then ret (msg_kept (rd_name self))
        else
          let* _ := rmdir (rd_name self) in
          ret (msg_removing (rd_name self))
    end in
  logging WARNING msg.

(** [with ReportDirectory(hint, keep) as out_dir: body]: the directory
    is made first; the exit handler runs however the body ends, and what
    the handler raises replaces the body's result. *)
Definition with_ReportDirectory {A} (hint keep : pyval)
    (body : string → M A) : M A :=
  fun w =>
    match ReportDirectory_init hint keep w with
    | (Raise e, w1) => (Raise e, w1)
    | (Ok self, w1) =>
        let (r, w2) := body (rd_name self) w1 in
        match ReportDirectory_exit self w2 with
        | (Ok _, w3) => (r, w3)
        | (Raise e, w3) => (Raise e, w3)
        end
    end.

(** *** Running the analyzer *)

(** Modelled from the spec: the [require] decorator comes from
    [analyzer.decorators], which is not among the sources, and the
    specification does not describe it.  Its name and argument are taken
    at their word: the call goes through only when the dictionary has
    the listed keys, and a missing key is a [KeyError].  The other
    decorator, [trace], only logs entry and exit and is left out. *)
Fixpoint require (ks : list string) (args : pydict) : M unit :=
  match ks with
  | [] => ret tt
  | k :: ks' => if dict_in k args then require ks' args else raise (KeyError k)
  end.

Definition uname : M string :=
  fun w =>
    match uname_out w with
    | Some s => (Ok s, w)
    | None => (Raise CalledProcessError, w)
    end.

(** The constants merged into every entry. *)
Record constants : Type := {
  c_clang : pyval;
  c_out_dir : string;
  c_direct_args : list pyval;
  c_uname : string
}.

Definition common_params (out_dir : string) (opts : pydict) : M constants :=
  let* clang := lift (dict_item "clang" opts) in
  let* direct_args := lift (parameters_from_command_line repr_list opts) in
  let* u := uname in
  ret {| c_clang := clang; c_out_dir := out_dir;
         c_direct_args := direct_args; c_uname := u |}.

(** [current.update(const); yield current] *)
Definition wrap (iterable : list compilation_entry) (const : constants)
  : list dispatch_params :=
  map (fun current =>
         {| dp_entry := current; dp_clang := c_clang const;
            dp_out_dir := c_out_dir const;
            dp_direct_args := c_direct_args const;
            dp_uname := c_uname const |})
      iterable.

(** One entry handed to a worker. *)
Definition dispatch (params : dispatch_params) : M (option analysis_result) :=
  fun w =>
    let (r, f) := run params (fs w) in
    (Ok r, set_fs f (add_event (EvDispatch params) w)).

Fixpoint log_lines (lines : list string) : M unit :=
  match lines with
  | [] => ret tt
  | line :: lines' =>
      let* _ := logging INFO (rstrip line) in
      log_lines lines'
  end.

(** The body of the loop over the results. *)
Definition consume (current : option analysis_result) : M unit :=
  match current with
  | Some result =>
      match ar_analyzer result with
      | Some analyzer =>
          match ai_error_output analyzer with
          | Some lines => log_lines lines
          | None => raise (KeyError "error_output")
          end
      | None => ret tt
      end
  | None => ret tt
  end.

(** The loop over [pool.imap_unordered(run, ...)].  The pool hands the
    results back in the order the workers finish; here the entries are
    analysed and their results consumed in database order, which is what
    a pool of one worker does. *)
Fixpoint analyze_all (work : list dispatch_params) : M unit :=
  match work with
  | [] => ret tt
  | params :: work' =>
      let* current := dispatch params in
      let* _ := consume current in
      analyze_all work'
  end.

Definition make_pool (sequential : pyval) : M unit :=
  fun w => (Ok tt, add_event (EvPool (py_truthy sequential)) w).

Definition run_analyzer (args : pydict) (out_dir : string) : M unit :=
  let* _ := require ["input"; "sequential"] args in
  let* input := lift (dict_item "input" args) in
  let* handle := open_read input in
  let* sequential := lift (dict_item "sequential" args) in
  let* _ := make_pool sequential in
  let* db := json_load handle in
  let* const := common_params out_dir args in
  analyze_all (wrap db const).

(** *** The common prefix *)

Definition filenames (compilation_database : pyval) : M (list string) :=
  let* handle := open_read compilation_database in
  let* db := json_load handle in
  ret (map (fun entry => dirname (ce_file entry)) db).

Definition common (files : list string) : M string :=
  fun w =>
    let result :=
      fold_left
        (fun result current =>
           match result with
           | None => Some current
           | Some r => Some (commonprefix r current)
           end)
        files None in
    match result with
    | None => (Ok "", w)
    | Some r =>
        if negb (isdir (fs w) r) then (Ok (dirname r), w) else (Ok r, w)
    end.

Definition get_prefix_from (compilation_database : pyval) : M string :=
  let* files := filenames compilation_database in
  common files.

(** *** Entry point *)

Definition report (ra : report_args) : M Z :=
  fun w =>
    let (r, f) := generate_report ra (fs w) in
    (r, set_fs f (add_event (EvReport ra) w)).

(** What [main] does once the command line is parsed. *)
Definition main_body (args : pydict) : M Z :=
  let* verbose := lift (dict_item "verbose" args) in
  let* _ := (fun w => (Ok tt, set_log_level (from_number_to_level verbose) w)) in
  let* _ := (fun w => (Ok tt, add_log (LogArgs DEBUG args) w)) in
  let* output := lift (dict_item "output" args) in
  let* keep_empty := lift (dict_item "keep_empty" args) in
  with_ReportDirectory output keep_empty (fun out_dir =>
    let* _ := run_analyzer args out_dir in
    let* number_of_bugs :=
      if needs_report_file args then
        let* sequential := lift (dict_item "sequential" args) in
        let* input := lift (dict_item "input" args) in
        let* prefix := get_prefix_from input in
        let* clang := lift (dict_item "clang" args) in
        let* html_title := lift (dict_item "html_title" args) in
        report {| ra_sequential := sequential; ra_out_dir := out_dir;
                  ra_prefix := prefix; ra_clang := clang;
                  ra_html_title := html_title |}
      else ret 0 in
    ret (if dict_in "status_bugs" args then number_of_bugs else 0)).

Definition main (argv : list cli_option) : M Z :=
  let* args := lift (parse_command_line argv) in
  main_body args.

End Beye.

(** ** The deduplicator *)

Section Deduplicator.

Context {E K : Type} `{Countable K}.

(** The predicate object: the identity function and the identities
    seen so far, both attributes of the function returned. *)
Record predicate_object : Type := {
  unique : E → K;
  state : gset K
}.

Definition duplicate_check (method : E → K) : predicate_object :=
  {| unique := method; state := ∅ |}.

(** One call; the object after the call is returned with the answer. *)
Definition predicate (p : predicate_object) (entry : E)
  : bool * predicate_object :=
  let entry_hash := unique p entry in
  if decide (entry_hash ∉ state p) then
    (false, {| unique := unique p; state := state p ∪ {[entry_hash]} |})
  else (true, p).

(** The answers of one predicate over a sequence, in one pass. *)
Fixpoint answers (p : predicate_object) (entries : list E) : list bool :=
  match entries with
  | [] => []
  | e :: entries' =>
      let (b, p') := predicate p e in
      b :: answers p' entries'
  end.

(** [[e for e in entries if not p(e)]] *)
Fixpoint first_occurrences (p : predicate_object) (entries : list E)
  : list E :=
  match entries with
  | [] => []
  | e :: entries' =>
      let (b, p') := predicate p e in
      if b then first_occurrences p' entries'
      else e :: first_occurrences p' entries'
  end.

End Deduplicator.

(** ** The emission order, as a list expression

    What section 4.2 of the specification describes: one segment per
    option, concatenated in a fixed order, every flag then preceded by
    the pass-through marker. *)

Section TranslatorOrder.

Variable repr_list : list string → string.

(** The value an option is set to: present and not [None]. *)
Definition setting (k : string) (args : pydict) : option pyval :=
  match dict_get k args with
  | Some v => if is_none v then None else Some v
  | None => None
  end.

(** The flags of one option: none when it is not set. *)
Definition emitted (k : string) (f : pyval → list pyval) (args : pydict)
  : list pyval :=
  match setting k args with
  | Some v => f v
  | None => []
  end.

Definition flag_pairs (flag : string) (v : pyval) : list pyval :=
  flat_map (fun x => [PStr flag; x]) (py_elements v).

Definition progress_flag (v : pyval) : list pyval :=
  match py_le_int 2 v with
  | Ok true => [PStr "-analyzer-display-progress"]
  | _ => []
  end.

Definition ordered_flags (args : pydict) : list pyval :=
  emitted "store_model"
    (fun v => [PStr ("-analyzer-store=" +:+ py_str repr_list v)]) args
  ++ emitted "constraints_model"
    (fun v => [PStr ("-analyzer-constraints=" +:+ py_str repr_list v)]) args
  ++ emitted "internal_stats" (fun _ => [PStr "-analyzer-stats"]) args
  ++ emitted "analyze_headers"
    (fun _ => [PStr "-analyzer-opt-analyze-headers"]) args
  ++ emitted "stats" (fun _ => [PStr "-analyzer-checker=debug.Stats"]) args
  ++ emitted "maxloop"
    (fun v => [PStr "-analyzer-max-loop"; PStr (py_str repr_list v)]) args
  ++ emitted "output_format"
    (fun v => [PStr ("-analyzer-output=" +:+ py_str repr_list v)]) args
  ++ emitted "analyzer_config" (fun v => [v]) args
  ++ emitted "verbose" progress_flag args
  ++ emitted "plugins" (flag_pairs "-load") args
  ++ emitted "enable_checker" (flag_pairs "-analyzer-checker") args
  ++ emitted "disable_checker" (flag_pairs "-analyzer-disable-checker") args
  ++ emitted "ubiviz" (fun _ => [PStr "-analyzer-viz-egraph-ubigraph"]) args.

Definition pass_through (flags : list pyval) : list pyval :=
  flat_map (fun x => [PStr "-Xclang"; x]) flags.

Definition int_like (v : pyval) : bool :=
  match v with PInt _ | PBool _ => true | _ => false end.

Definition typed (k : string) (ok : pyval → bool) (args : pydict) : bool :=
  match setting k args with
  | Some v => ok v
  | None => true
  end.

(** The values the translator can work with: a number for the
    verbosity, sequences for the three lists. *)
Definition translatable (args : pydict) : bool :=
  typed "verbose" int_like args
  && typed "plugins" py_iterable args
  && typed "enable_checker" py_iterable args
  && typed "disable_checker" py_iterable args.

End TranslatorOrder.

(** ** What the parser leaves in the namespace *)

(** The type of value each destination holds after parsing. *)
Definition has_type (k : string) (v : pyval) : bool :=
  if existsb (String.eqb k)
       ["sequential"; "status_bugs"; "analyze_headers"; "keep_empty";
        "report_failures"; "stats"; "internal_stats"]
  then match v with PBool _ => true | _ => false end
  else if existsb (String.eqb k) ["verbose"; "maxloop"]
  then match v with PInt _ => true | _ => false end
  else if existsb (String.eqb k) ["plugins"; "enable_checker"; "disable_checker"]
  then match v with PList _ | PNone => true | _ => false end
  else if existsb (String.eqb k) ["html_title"; "analyzer_config"]
  then match v with PStr _ | PNone => true | _ => false end
  else match v with PStr _ => true | _ => false end.

Definition namespace_ok (ns : pydict) : Prop :=
  keys ns = keys defaults ∧ Forall (fun kv => has_type kv.1 kv.2 = true) ns.

(** ** Reading the trace *)

Definition sel_report (e : event) : option report_args :=
  match e with EvReport ra => Some ra | _ => None end.

Definition sel_dispatch (e : event) : option dispatch_params :=
  match e with EvDispatch p => Some p | _ => None end.

(** The report steps and the dispatches of a trace, in order. *)
Definition reports (evs : list event) : list report_args :=
  omap sel_report evs.

Definition dispatches (evs : list event) : list dispatch_params :=
  omap sel_dispatch evs.

(** [m] adds no event that [sel] picks. *)
Definition quiet {X A : Type} (sel : event → option X) (m : M A) : Prop :=
  ∀ w, omap sel (events (m w).2) = omap sel (events w).

(** ** Paths below a directory *)

(** [p] is [d] or lies under it: [d] is a prefix of [p] that ends at a
    component boundary. *)
Definition under (d p : string) : bool :=
  String.eqb d p || String.prefix (d +:+ "/") p.

(** ** When [mkdir] goes through *)

Definition taken (f : gmap string node) (p : string) : bool :=
  negb (String.eqb (fs_key p) "") && bool_decide (is_Some (f !! fs_key p)).

Definition creatable (f : gmap string node) (p : string) : bool :=
  negb (String.eqb (fs_key p) "")
  && negb (bool_decide (is_Some (f !! fs_key p)))
  && (String.eqb (dirname (fs_key p)) "" || isdir f (dirname (fs_key p))).

(** The path [mkdtemp] tries for a drawn name. *)
Definition temp_path (w : world) (n : string) : string :=
  path_join (tempdir w) ("beye-" +:+ n +:+ ".out").

(** ** Results the loop can consume *)

(** The lines of a result: none when there is no result or no analyzer
    data; undefined when analyzer data comes without [error_output]. *)
Definition diagnostic_lines (current : option analysis_result)
  : option (list string) :=
  match current with
  | Some result =>
      match ar_analyzer result with
      | Some analyzer => ai_error_output analyzer
      | None => Some []
      end
  | None => Some []
  end.

Definition log_all (rstrip : string → string) (lines : list string) (w : world)
  : world :=
  fold_left (fun w line => add_log (LogMsg INFO (rstrip line)) w) lines w.

(** ** Sample runs *)

Definition lib_a : compilation_entry :=
  {| ce_file := "/proj/lib/a.c"; ce_directory := "/proj";
     ce_command := "cc -c lib/a.c" |}.

Definition libfoo_b : compilation_entry :=
  {| ce_file := "/proj/libfoo/b.c"; ce_directory := "/proj";
     ce_command := "cc -c libfoo/b.c" |}.

Definition sample_fs : gmap string node :=
  list_to_map
    [ ("/", Dir); ("/tmp", Dir); ("/var", Dir); ("/var/tmp", Dir);
      ("/proj", Dir); ("/proj/lib", Dir); ("/proj/libfoo", Dir);
      ("/tmp/beye-k3x9qa.out", Dir);
      ("compile_commands.json", File (Some [lib_a; libfoo_b]));
      ("empty.json", File (Some []));
      ("broken.json", File None) ].

Definition sample_world : world :=
  {| fs := sample_fs; tempdir := "/tmp"; candidates := ["k3x9qa"; "w81mzp"];
     uname_out := Some "Linux buildhost 6.1"; log_level := WARNING;
     log := []; events := [] |}.

(** The same machine with [TMPDIR=/var/tmp]. *)
Definition sample_world_tmpdir : world :=
  {| fs := sample_fs; tempdir := "/var/tmp"; candidates := ["k3x9qa"; "w81mzp"];
     uname_out := Some "Linux buildhost 6.1"; log_level := WARNING;
     log := []; events := [] |}.

Definition sample_repr (l : list string) : string :=
  "[" +:+ String.concat ", " l +:+ "]".

Definition sample_rstrip (s : string) : string := s.

(** An analyzer that reports one warning per file and leaves a report
    in the output directory. *)
Definition sample_run (p : dispatch_params) (f : gmap string node)
  : option analysis_result * gmap string node :=
  (Some {| ar_analyzer :=
             Some {| ai_error_output := Some ["1 warning generated."];
                     ai_exit_code := 0 |} |},
   <[path_join (dp_out_dir p) (basename (ce_file (dp_entry p)) +:+ ".plist")
       := File None]> f).

(** An analyzer that finds nothing and writes nothing. *)
Definition silent_run (p : dispatch_params) (f : gmap string node)
  : option analysis_result * gmap string node :=
  (None, f).

(** An analyzer result with analyzer data but no [error_output]. *)
Definition bare_result : analysis_result :=
  {| ar_analyzer := Some {| ai_error_output := None; ai_exit_code := 1 |} |}.

(** A report step that counts [n] bugs. *)
Definition sample_report (n : Z) (ra : report_args) (f : gmap string node)
  : outcome Z * gmap string node :=
  (Ok n, f).

(** The directory holds nothing. *)
Definition dir_empty (f : gmap string node) (name : string) : bool :=
  match children f (fs_key name) with
  | [] => true
  | _ => false
  end.

(** ** Describing a run *)

(** Every value [m] returns satisfies [P]. *)
Definition returns {A : Type} (P : A → Prop) (m : M A) : Prop :=
  ∀ w a, (m w).1 = Ok a → P a.

(** Whenever [m] returns, it has run the report step exactly once. *)
Definition reports_once {A : Type} (m : M A) : Prop :=
  ∀ w a, (m w).1 = Ok a →
    ∃ ra, reports (events (m w).2) = reports (events w) ++ [ra].

(** The compilation database at a path, when there is one that parses. *)
Definition database (f : gmap string node) (p : string)
  : option (list compilation_entry) :=
  if String.eqb p "" then None
  else match f !! fs_key p with
       | Some (File (Some db)) => Some db
       | _ => None
       end.

(** The errors of opening and parsing the database. *)
Definition load_error (p : string) (e : exn) : Prop :=
  e = OSError ENOENT p ∨ e = OSError EISDIR p ∨ e = ValueError.

(** ** [libscanbuild]: the default temporary directory, logging set-up *)

Module libscanbuild.

(** [os.getenv(k, default)] over the environment of the process. *)
Definition getenv (env : gmap string string) (k : string) (default : string)
  : string :=
  match env !! k with
  | Some v => v
  | None => default
  end.

Definition tempdir (env : gmap string string) : string :=
  getenv env "TMPDIR" (getenv env "TEMP" (getenv env "TMP" "/tmp")).

(** The format and the level handed to [logging.basicConfig];
    [argv0] is [sys.argv[0]]. *)
Definition initialize_logging (argv0 : string) (verbose_level : Z)
  : string * Z :=
  let level := WARNING - Z.min WARNING (10 * verbose_level) in
  let fmt_string :=
    if 3 <=? verbose_level
    then fun program => program +:+ ": %(levelname)s: %(message)s"
    else fun program =>
           program +:+ ": %(levelname)s: %(funcName)s: %(message)s" in
  let program := basename argv0 in
  (fmt_string program, level).

End libscanbuild.

(** ** The command line, read declaratively *)

(** The destination an option writes, and the value it writes given
    the value the destination holds. *)
Definition assignment (o : cli_option) : string * (option pyval → pyval) :=
  match o with
  | OptInput f => ("input", fun _ => PStr f)
  | OptOutput p => ("output", fun _ => PStr p)
  | OptSequential => ("sequential", fun _ => PBool true)
  | OptStatusBugs => ("status_bugs", fun _ => PBool true)
  | OptHtmlTitle t => ("html_title", fun _ => PStr t)
  | OptAnalyzeHeaders => ("analyze_headers", fun _ => PBool true)
  | OptPlist => ("output_format", fun _ => PStr "plist")
  | OptPlistHtml => ("output_format", fun _ => PStr "plist-html")
  | OptVerbose => ("verbose", count_action)
  | OptKeepEmpty => ("keep_empty", fun _ => PBool true)
  | OptNoFailureReports => ("report_failures", fun _ => PBool false)
  | OptStats => ("stats", fun _ => PBool true)
  | OptInternalStats => ("internal_stats", fun _ => PBool true)
  | OptMaxloop n => ("maxloop", fun _ => PInt n)
  | OptStore m => ("store_model", fun _ => PStr m)
  | OptConstraints m => ("constraints_model", fun _ => PStr m)
  | OptUseAnalyzer p => ("clang", fun _ => PStr p)
  | OptAnalyzerConfig s => ("analyzer_config", fun _ => PStr s)
  | OptLoadPlugin p => ("plugins", fun v => append_action v p)
  | OptEnableChecker c => ("enable_checker", fun v => append_action v c)
  | OptDisableChecker c => ("disable_checker", fun v => append_action v c)
  end.

Definition dest (o : cli_option) : string := (assignment o).1.

(** The options that accumulate instead of overwriting. *)
Definition accumulates (k : string) : bool :=
  existsb (String.eqb k)
    ["verbose"; "plugins"; "enable_checker"; "disable_checker"].

(** What the occurrences of destination [k] on the command line
    assign, in order, for a destination that overwrites. *)
Definition assigned (k : string) (argv : list cli_option) : list pyval :=
  omap (fun o => if String.eqb (dest o) k then Some ((assignment o).2 None)
                 else None)
       argv.

Definition is_verbose (o : cli_option) : bool :=
  match o with OptVerbose => true | _ => false end.

Definition plugin_of (o : cli_option) : option string :=
  match o with OptLoadPlugin p => Some p | _ => None end.

Definition enabled_of (o : cli_option) : option string :=
  match o with OptEnableChecker c => Some c | _ => None end.

Definition disabled_of (o : cli_option) : option string :=
  match o with OptDisableChecker c => Some c | _ => None end.

(** What an [append] destination holds: [None] until the first
    occurrence. *)
Definition collected (l : list string) : pyval :=
  match l with [] => PNone | _ => PList l end.

Definition valid_choice (o : cli_option) : bool :=
  match o with
  | OptStore m => existsb (String.eqb m) ["region"; "basic"]
  | OptConstraints m => existsb (String.eqb m) ["range"; "basic"]
  | _ => true
  end.




(** One step of the mutually exclusive group: whether option [o] may
    follow what was seen, and what has been seen after it. *)
Definition format_ok (seen : option format_flag) (o : cli_option) : bool :=
  match seen, o with
  | Some FPlist, OptPlistHtml | Some FPlistHtml, OptPlist => false
  | _, _ => true
  end.

Definition next_seen (seen : option format_flag) (o : cli_option)
  : option format_flag :=
  match o with
  | OptPlist => Some FPlist
  | OptPlistHtml => Some FPlistHtml
  | _ => seen
  end.



(** ** The flags of a command line *)

(** The keys the translator looks at. *)
Definition translator_keys : list string :=
  ["store_model"; "constraints_model"; "internal_stats"; "analyze_headers";
   "stats"; "maxloop"; "output_format"; "analyzer_config"; "verbose";
   "plugins"; "enable_checker"; "disable_checker"; "ubiviz"].

(** The value of an overwriting destination after the command line. *)
Definition value_of (k : string) (argv : list cli_option) : pyval :=
  match last (assigned k argv) with
  | Some v => v
  | None => match dict_get k defaults with Some v => v | None => PNone end
  end.

(** The analyzer flags of a command line, before [-Xclang] is put in
    front of each. *)
Definition command_line_flags (repr_list : list string → string)
    (argv : list cli_option) : list pyval :=
  [ PStr ("-analyzer-store=" +:+ py_str repr_list (value_of "store_model" argv));
    PStr ("-analyzer-constraints="
          +:+ py_str repr_list (value_of "constraints_model" argv));
    PStr "-analyzer-stats";
    PStr "-analyzer-opt-analyze-headers";
    PStr "-analyzer-checker=debug.Stats";
    PStr "-analyzer-max-loop";
    PStr (py_str repr_list (value_of "maxloop" argv));
    PStr ("-analyzer-output="
          +:+ py_str repr_list (value_of "output_format" argv)) ]
  ++ match last (assigned "analyzer_config" argv) with
     | Some v => [v]
     | None => []
     end
  ++ (if 2 <=? Z.of_nat (length (List.filter is_verbose argv))
      then [PStr "-analyzer-display-progress"] else [])
  ++ flat_map (fun p => [PStr "-load"; PStr p]) (omap plugin_of argv)
  ++ flat_map (fun c => [PStr "-analyzer-checker"; PStr c])
       (omap enabled_of argv)
  ++ flat_map (fun c => [PStr "-analyzer-disable-checker"; PStr c])
       (omap disabled_of argv).

(** ** More vocabulary for the statements *)

(** [s] is a leading part of [p], character by character. *)
Definition string_prefix (s p : string) : Prop := ∃ rest, p = s +:+ rest.

(** The message the release step logs. *)
Definition release_message (f : gmap string node) (self : ReportDirectory)
  : string :=
  if dir_empty f (rd_name self) then
    if py_truthy (rd_keep self) then msg_kept (rd_name self)
    else msg_removing (rd_name self)
  else msg_examine (rd_name self).

(** The predicate object after it has been asked about [entries]. *)
Fixpoint asked {E K : Type} `{Countable K}
    (p : predicate_object (E:=E) (K:=K)) (entries : list E)
  : predicate_object (E:=E) (K:=K) :=
  match entries with
  | [] => p
  | e :: entries' => asked (predicate p e).2 entries'
  end.

(** One step of the reduction in [common]. *)
Definition common_step (result : option string) (current : string)
  : option string :=
  match result with
  | None => Some current
  | Some r => Some (commonprefix r current)
  end.

(** [m] leaves the logging level alone. *)
Definition keeps_level {A : Type} (m : M A) : Prop :=
  ∀ w, log_level (m w).2 = log_level w.

(** ** Dictionaries: lookup after update, and under reordering *)

Lemma dict_get_set_eq k v d : dict_get k (dict_set k v d) = Some v.
Proof.
  induction d as [|[k' v'] d IH]; simpl.
  - by rewrite String.eqb_refl.
  - destruct (String.eqb k k') eqn:Hk; simpl; by rewrite ?String.eqb_refl, ?Hk.
Qed.

Lemma dict_get_set_ne k k' v d :
  k ≠ k' → dict_get k (dict_set k' v d) = dict_get k d.
Proof.
  intros Hne. apply String.eqb_neq in Hne.
  induction d as [|[k2 v2] d IH]; simpl.
  - by rewrite Hne.
  - destruct (String.eqb k' k2) eqn:Hk; simpl.
    + apply String.eqb_eq in Hk as <-. by rewrite Hne.
    + by rewrite IH.
Qed.

Lemma keys_dict_set k v d : k ∈ keys d → keys (dict_set k v d) = keys d.
Proof.
  unfold keys. induction d as [|[k' v'] d IH]; simpl.
  - by rewrite elem_of_nil.
  - destruct (String.eqb k k') eqn:Hk; simpl.
    + by apply String.eqb_eq in Hk as <-.
    + apply String.eqb_neq in Hk. rewrite elem_of_cons.
      intros [?|Hin]; [done|]. by rewrite IH.
Qed.

Lemma dict_get_None k d : dict_get k d = None ↔ k ∉ keys d.
Proof.
  unfold keys. induction d as [|[k' v'] d IH]; simpl.
  - rewrite elem_of_nil. tauto.
  - rewrite elem_of_cons. destruct (String.eqb k k') eqn:Hk.
    + apply String.eqb_eq in Hk. split; [done|]. intros []. by left.
    + apply String.eqb_neq in Hk. rewrite IH. tauto.
Qed.

Lemma dict_get_Some k v d :
  NoDup (keys d) → dict_get k d = Some v ↔ (k, v) ∈ d.
Proof.
  unfold keys. induction d as [|[k' v'] d IH]; simpl; intros Hnd.
  - rewrite elem_of_nil. split; [done|tauto].
  - apply NoDup_cons in Hnd as [Hk' Hnd]. rewrite elem_of_cons.
    destruct (String.eqb k k') eqn:Hk.
    + apply String.eqb_eq in Hk as ->. split.
      * intros [= ->]. by left.
      * intros [[= ->]|Hin]; [done|]. destruct Hk'.
        apply list_elem_of_fmap. by exists (k', v).
    + apply String.eqb_neq in Hk. rewrite (IH Hnd).
      split; [tauto|]. intros [[= -> ->]|?]; done.
Qed.

Lemma dict_get_Permutation k d d' :
  NoDup (keys d) → d ≡ₚ d' → dict_get k d = dict_get k d'.
Proof.
  intros Hnd Hp.
  assert (NoDup (keys d')) as Hnd'.
  { unfold keys in *. by rewrite <- Hp. }
  destruct (dict_get k d) as [v|] eqn:Hd.
  - symmetry. apply (dict_get_Some _ _ _ Hnd'). rewrite <- Hp.
    by apply (dict_get_Some _ _ _ Hnd).
  - symmetry. apply dict_get_None. apply dict_get_None in Hd.
    unfold keys in *. by rewrite <- Hp.
Qed.

(** ** The translator *)

Section TranslatorFacts.

Variable repr_list : list string → string.

Lemma not_none_items_fold args : ∀ acc k,
  NoDup (keys args) →
  dict_get k
    (fold_left
       (fun d kv => if is_none (snd kv) then d else dict_set (fst kv) (snd kv) d)
       args acc)
  = match dict_get k args with
    | Some v => if is_none v then dict_get k acc else Some v
    | None => dict_get k acc
    end.
Proof.
  unfold keys. induction args as [|[k' v'] args IH]; intros acc k Hnd; [done|].
  simpl in *. apply NoDup_cons in Hnd as [Hk' Hnd]. rewrite (IH _ _ Hnd).
  destruct (String.eqb k k') eqn:Hk.
  - apply String.eqb_eq in Hk as ->.
    assert (dict_get k' args = None) as -> by by apply dict_get_None.
    destruct (is_none v'); [done|]. apply dict_get_set_eq.
  - apply String.eqb_neq in Hk.
    assert (dict_get k (if is_none v' then acc else dict_set k' v' acc)
            = dict_get k acc) as ->; [|done].
    destruct (is_none v'); [done|]. by apply dict_get_set_ne.
Qed.

Lemma dict_get_not_none_items k args :
  NoDup (keys args) → dict_get k (not_none_items args) = setting k args.
Proof.
  intros Hnd. unfold not_none_items, setting.
  rewrite (not_none_items_fold _ _ _ Hnd). simpl.
  destruct (dict_get k args) as [v|]; [by destruct (is_none v)|done].
Qed.

Lemma fold_left_pairs flag (xs acc : list pyval) :
  fold_left (fun acc x => acc ++ [PStr flag; x]) xs acc
  = acc ++ flat_map (fun x => [PStr flag; x]) xs.
Proof.
  revert acc. induction xs as [|x xs IH]; intros acc; simpl.
  - by rewrite app_nil_r.
  - rewrite IH. by rewrite <- app_assoc.
Qed.

(** One step of the translator appends the segment of its option. *)
Lemma step_value k opts (f : pyval → list pyval) (result : list pyval) :
  (if dict_in k opts
   then obind (dict_item k opts) (fun v => Ok (result ++ f v))
   else Ok result)
  = Ok (result ++ match dict_get k opts with Some v => f v | None => [] end).
Proof.
  unfold dict_in, dict_item. destruct (dict_get k opts); simpl; [done|].
  by rewrite app_nil_r.
Qed.

Lemma step_flag k opts (flags result : list pyval) :
  (if dict_in k opts then Ok (result ++ flags) else Ok result)
  = Ok (result ++ match dict_get k opts with Some _ => flags | None => [] end).
Proof.
  unfold dict_in. destruct (dict_get k opts); simpl; [done|].
  by rewrite app_nil_r.
Qed.

Lemma step_progress opts (result : list pyval) :
  (if dict_in "verbose" opts
   then obind (dict_item "verbose" opts) (fun v =>
          obind (py_le_int 2 v) (fun c =>
            if c then Ok (result ++ [PStr "-analyzer-display-progress"])
            else Ok result))
   else Ok result)
  = match dict_get "verbose" opts with
    | Some v =>
        if int_like v then Ok (result ++ progress_flag v) else Raise TypeError
    | None => Ok (result ++ [])
    end.
Proof.
  unfold dict_in, dict_item, progress_flag.
  destruct (dict_get "verbose" opts) as [v|]; simpl; [|by rewrite app_nil_r].
  destruct v as [|b|z| |]; simpl; try done.
  - destruct (2 <=? (if b then 1 else 0))%Z; [done|by rewrite app_nil_r].
  - destruct (2 <=? z)%Z; [done|by rewrite app_nil_r].
Qed.

Lemma step_pairs k flag opts (result : list pyval) :
  (if dict_in k opts
   then obind (dict_item k opts) (fun v => reduce_pairs flag v result)
   else Ok result)
  = match dict_get k opts with
    | Some v =>
        if py_iterable v then Ok (result ++ flag_pairs flag v)
        else Raise TypeError
    | None => Ok (result ++ [])
    end.
Proof.
  unfold dict_in, dict_item, reduce_pairs, py_iter, flag_pairs.
  destruct (dict_get k opts) as [v|]; simpl; [|by rewrite app_nil_r].
  destruct (py_iterable v); simpl; [|done]. by rewrite fold_left_pairs.
Qed.

(** The translator, in closed form. *)
Lemma parameters_closed_form args :
  NoDup (keys args) →
  parameters_from_command_line repr_list args
  = if translatable args
    then Ok (pass_through (ordered_flags repr_list args))
    else Raise TypeError.
Proof.
  intros Hnd. unfold parameters_from_command_line.
  set (opts := not_none_items args).
  rewrite (step_value "store_model" opts
             (fun v => [PStr ("-analyzer-store=" +:+ py_str repr_list v)])).
  cbn [obind].
  rewrite (step_value "constraints_model" opts
             (fun v => [PStr ("-analyzer-constraints=" +:+ py_str repr_list v)])).
  cbn [obind].
  rewrite (step_flag "internal_stats"). cbn [obind].
  rewrite (step_flag "analyze_headers"). cbn [obind].
  rewrite (step_flag "stats"). cbn [obind].
  rewrite (step_value "maxloop" opts
             (fun v => [PStr "-analyzer-max-loop"; PStr (py_str repr_list v)])).
  cbn [obind].
  rewrite (step_value "output_format" opts
             (fun v => [PStr ("-analyzer-output=" +:+ py_str repr_list v)])).
  cbn [obind].
  rewrite (step_value "analyzer_config" opts (fun v => [v])). cbn [obind].
  rewrite step_progress.
  unfold translatable, typed, ordered_flags, emitted.
  subst opts. rewrite !(dict_get_not_none_items _ _ Hnd).
  destruct (setting "verbose" args) as [vv|];
    [destruct (int_like vv); [|done]|]; cbn [obind andb];
  (rewrite step_pairs; rewrite !(dict_get_not_none_items _ _ Hnd);
   destruct (setting "plugins" args) as [vp|];
     [destruct (py_iterable vp); [|done]|]; cbn [obind andb];
   (rewrite step_pairs; rewrite !(dict_get_not_none_items _ _ Hnd);
    destruct (setting "enable_checker" args) as [ve|];
      [destruct (py_iterable ve); [|done]|]; cbn [obind andb];
    (rewrite step_pairs; rewrite !(dict_get_not_none_items _ _ Hnd);
     destruct (setting "disable_checker" args) as [vd|];
       [destruct (py_iterable vd); [|done]|]; cbn [obind andb];
     rewrite step_flag, !(dict_get_not_none_items _ _ Hnd); cbn [obind];
     rewrite fold_left_pairs; unfold pass_through; simpl;
     f_equal; f_equal; rewrite <- ?app_assoc; reflexivity))).
Qed.

End TranslatorFacts.

(** ** The parser's namespace *)

Lemma defaults_NoDup : NoDup (keys defaults).
Proof. apply (bool_decide_unpack _). by vm_compute. Qed.

Lemma namespace_ok_defaults : namespace_ok defaults.
Proof. split; [done|]. unfold defaults. repeat constructor. Qed.

Lemma Forall_dict_set (P : string * pyval → Prop) k v d :
  P (k, v) → Forall P d → Forall P (dict_set k v d).
Proof.
  intros HP. induction 1 as [|[k' v'] d Hx Hd IH]; simpl.
  - by constructor.
  - destruct (String.eqb k k'); constructor; done.
Qed.

Lemma namespace_ok_set k v ns :
  namespace_ok ns → k ∈ keys defaults → has_type k v = true →
  namespace_ok (dict_set k v ns).
Proof.
  intros [Hk Ht] Hin Hv. split.
  - rewrite keys_dict_set; [done|]. by rewrite Hk.
  - by apply Forall_dict_set.
Qed.

Lemma namespace_ok_get k ns :
  namespace_ok ns → k ∈ keys defaults →
  ∃ v, dict_get k ns = Some v ∧ has_type k v = true.
Proof.
  intros [Hk Ht] Hin. destruct (dict_get k ns) as [v|] eqn:Hg.
  - exists v. split; [done|].
    assert (NoDup (keys ns)) as Hnd by (rewrite Hk; apply defaults_NoDup).
    apply (dict_get_Some _ _ _ Hnd) in Hg.
    rewrite Forall_forall in Ht. apply (Ht (k, v) Hg).
  - apply dict_get_None in Hg. by rewrite Hk in Hg.
Qed.

Ltac key_in_defaults :=
  apply (bool_decide_unpack _); by vm_compute.

Lemma apply_option_ok o st st' :
  namespace_ok (namespace st) → apply_option o st = Ok st' →
  namespace_ok (namespace st').
Proof.
  intros Hok. destruct o; simpl; unfold store, store_choice, store_format;
    try (intros [= <-]; simpl; apply namespace_ok_set;
         [done|key_in_defaults|done]).
  - destruct (format_seen st) as [[]|]; intros [= <-]; simpl;
      (apply namespace_ok_set; [done|key_in_defaults|done]).
  - destruct (format_seen st) as [[]|]; intros [= <-]; simpl;
      (apply namespace_ok_set; [done|key_in_defaults|done]).
  - intros [= <-]; simpl. apply namespace_ok_set; [done|key_in_defaults|].
    unfold count_action. by destruct (dict_get _ _) as [[]|].
  - destruct (existsb _ _); intros [= <-]; simpl.
    apply namespace_ok_set; [done|key_in_defaults|done].
  - destruct (existsb _ _); intros [= <-]; simpl.
    apply namespace_ok_set; [done|key_in_defaults|done].
  - intros [= <-]; simpl. apply namespace_ok_set; [done|key_in_defaults|].
    unfold append_action. by destruct (dict_get _ _) as [[]|].
  - intros [= <-]; simpl. apply namespace_ok_set; [done|key_in_defaults|].
    unfold append_action. by destruct (dict_get _ _) as [[]|].
  - intros [= <-]; simpl. apply namespace_ok_set; [done|key_in_defaults|].
    unfold append_action. by destruct (dict_get _ _) as [[]|].
Qed.

Lemma parse_args_ok argv : ∀ st st',
  namespace_ok (namespace st) → parse_args argv st = Ok st' →
  namespace_ok (namespace st').
Proof.
  induction argv as [|o argv IH]; intros st st' Hok; simpl.
  - by intros [= <-].
  - destruct (apply_option o st) as [st1|] eqn:Ho; simpl; [|done].
    apply IH. by apply (apply_option_ok o st).
Qed.

Lemma parse_command_line_ok argv args :
  parse_command_line argv = Ok args → namespace_ok args.
Proof.
  unfold parse_command_line.
  destruct (parse_args argv _) as [st|] eqn:Hp; simpl; [|done].
  intros [= <-].
  apply (parse_args_ok argv {| namespace := defaults; format_seen := None |});
    [apply namespace_ok_defaults|done].
Qed.

Lemma namespace_ok_NoDup ns : namespace_ok ns → NoDup (keys ns).
Proof. intros [-> _]. apply defaults_NoDup. Qed.

(** A store-true destination is always present, with a boolean. *)
Lemma namespace_ok_bool k ns :
  namespace_ok ns →
  k ∈ ["sequential"; "status_bugs"; "analyze_headers"; "keep_empty";
       "report_failures"; "stats"; "internal_stats"] →
  ∃ b, dict_get k ns = Some (PBool b).
Proof.
  intros Hok Hin.
  assert (k ∈ keys defaults) as Hk.
  { repeat (apply elem_of_cons in Hin as [->|Hin]; [key_in_defaults|]).
    by apply elem_of_nil in Hin. }
  destruct (namespace_ok_get k ns Hok Hk) as (v & Hg & Ht).
  repeat (apply elem_of_cons in Hin as [->|Hin];
          [destruct v; try done; by eexists|]).
  by apply elem_of_nil in Hin.
Qed.

Lemma namespace_ok_translatable ns : namespace_ok ns → translatable ns = true.
Proof.
  intros Hok. unfold translatable, typed, setting.
  destruct (namespace_ok_get "verbose" ns Hok) as (v1 & -> & H1);
    [key_in_defaults|].
  destruct (namespace_ok_get "plugins" ns Hok) as (v2 & -> & H2);
    [key_in_defaults|].
  destruct (namespace_ok_get "enable_checker" ns Hok) as (v3 & -> & H3);
    [key_in_defaults|].
  destruct (namespace_ok_get "disable_checker" ns Hok) as (v4 & -> & H4);
    [key_in_defaults|].
  by destruct v1, v2, v3, v4.
Qed.

(** Every command line the parser accepts translates. *)
Lemma parameters_of_parsed repr_list argv args :
  parse_command_line argv = Ok args →
  parameters_from_command_line repr_list args
  = Ok (pass_through (ordered_flags repr_list args)).
Proof.
  intros Hok%parse_command_line_ok.
  rewrite parameters_closed_form by by apply namespace_ok_NoDup.
  by rewrite namespace_ok_translatable.
Qed.

(** ** Order of emission *)

Lemma setting_Permutation k args args' :
  NoDup (keys args) → args ≡ₚ args' → setting k args = setting k args'.
Proof. intros Hnd Hp. unfold setting. by rewrite (dict_get_Permutation k _ _ Hnd Hp). Qed.

Lemma elem_of_pass_through x flags : x ∈ flags → x ∈ pass_through flags.
Proof.
  unfold pass_through. intros Hx. apply list_elem_of_In, in_flat_map.
  exists x. split; [by apply list_elem_of_In|]. right. by left.
Qed.

(** C3: the translator emits the segments of the options in the fixed
    order store model, constraint model, internal-stats,
    analyze-headers, stats, max-loop pair, output format, analyzer-config
    string, progress flag, plugin pairs, enabled-checker pairs,
    disabled-checker pairs (and last the [ubiviz] flag, which no parsed
    command line sets); every flag is then preceded by [-Xclang] in that
    same order; and a dictionary holding the same items in another order
    translates to the same list.  Verbosity that is not a number, or a
    list option that is not a sequence, raises [TypeError]. *)
Theorem C3_fixed_emission_order (repr_list : list string → string)
    (args : pydict) :
  NoDup (keys args) →
  parameters_from_command_line repr_list args
  = (if translatable args
     then Ok (pass_through (ordered_flags repr_list args))
     else Raise TypeError)
  ∧ ∀ args', args ≡ₚ args' →
      parameters_from_command_line repr_list args'
      = parameters_from_command_line repr_list args.
Proof.
  intros Hnd. split; [by apply parameters_closed_form|].
  intros args' Hp.
  assert (NoDup (keys args')) as Hnd' by (unfold keys in *; by rewrite <- Hp).
  rewrite !parameters_closed_form by done.
  unfold translatable, typed, ordered_flags, emitted.
  by rewrite !(setting_Permutation _ args args' Hnd Hp).
Qed.

Lemma C3_fixed_emission_order_witness :
  parameters_from_command_line (fun _ => "")
    [("verbose", PInt 2); ("enable_checker", PList ["core"]);
     ("store_model", PStr "basic"); ("html_title", PNone)]
  = Ok [PStr "-Xclang"; PStr "-analyzer-store=basic";
        PStr "-Xclang"; PStr "-analyzer-display-progress";
        PStr "-Xclang"; PStr "-analyzer-checker"; PStr "-Xclang"; PStr "core"].
Proof.
  assert (NoDup (keys [("verbose", PInt 2); ("enable_checker", PList ["core"]);
                       ("store_model", PStr "basic"); ("html_title", PNone)]))
    as Hnd.
  { apply (bool_decide_unpack _). vm_compute. exact I. }
  destruct (C3_fixed_emission_order (fun _ => "") _ Hnd) as [Heq _].
  rewrite Heq. reflexivity.
Defined.

(** C2, on the code: whatever the command line, the three store-true
    destinations are in the namespace (with [False] when not given), so
    the translator emits the stats-enabling, header-analysis and
    debug-statistics-checker flags on every run. *)
Theorem C2_flags_without_request (repr_list : list string → string)
    (argv : list cli_option) (args : pydict) :
  parse_command_line argv = Ok args →
  ∃ flags,
    parameters_from_command_line repr_list args = Ok flags
    ∧ PStr "-analyzer-stats" ∈ flags
    ∧ PStr "-analyzer-opt-analyze-headers" ∈ flags
    ∧ PStr "-analyzer-checker=debug.Stats" ∈ flags.
Proof.
  intros Hparse. exists (pass_through (ordered_flags repr_list args)).
  split; [by apply (parameters_of_parsed repr_list argv)|].
  pose proof (parse_command_line_ok _ _ Hparse) as Hok.
  destruct (namespace_ok_bool "internal_stats" args Hok) as [b1 H1];
    [set_solver|].
  destruct (namespace_ok_bool "analyze_headers" args Hok) as [b2 H2];
    [set_solver|].
  destruct (namespace_ok_bool "stats" args Hok) as [b3 H3]; [set_solver|].
  unfold ordered_flags, emitted, setting. rewrite H1, H2, H3. simpl.
  repeat split; apply elem_of_pass_through;
    rewrite !elem_of_app, !elem_of_cons; tauto.
Qed.

Lemma C2_flags_without_request_witness :
  dict_get "internal_stats" defaults = Some (PBool false)
  ∧ dict_get "analyze_headers" defaults = Some (PBool false)
  ∧ dict_get "stats" defaults = Some (PBool false)
  ∧ ∃ flags,
      parameters_from_command_line (fun _ => "") defaults = Ok flags
      ∧ PStr "-analyzer-stats" ∈ flags
      ∧ PStr "-analyzer-opt-analyze-headers" ∈ flags
      ∧ PStr "-analyzer-checker=debug.Stats" ∈ flags.
Proof.
  repeat split; try reflexivity.
  apply (C2_flags_without_request (fun _ => "") [] defaults). reflexivity.
Defined.

(** ** The report directory *)

Lemma string_append_cons c (s t : string) :
  String c s +:+ t = String c (s +:+ t).
Proof. reflexivity. Qed.

Lemma string_length_append (s t : string) :
  String.length (s +:+ t) = (String.length s + String.length t)%nat.
Proof.
  induction s as [|c s IH]; [done|].
  rewrite string_append_cons. simpl. by rewrite IH.
Qed.

Lemma string_append_assoc (s t u : string) : (s +:+ t) +:+ u = s +:+ t +:+ u.
Proof.
  induction s as [|c s IH]; [done|].
  rewrite !string_append_cons. by rewrite IH.
Qed.

Lemma temp_path_not_tmp w n : temp_path w n ≠ "/tmp".
Proof.
  assert (∀ s, s +:+ ".out" ≠ "/tmp") as Hsuffix.
  { intros s Heq. pose proof (f_equal String.length Heq) as Hlen.
    rewrite string_length_append in Hlen. simpl in Hlen.
    destruct s; [done|simpl in Hlen; lia]. }
  unfold temp_path, path_join. intros Heq.
  destruct (String.eqb (tempdir w) "").
  - apply (Hsuffix ("beye-" +:+ n)). by rewrite string_append_assoc.
  - destruct (String.eqb _ (tempdir w)).
    + apply (Hsuffix (tempdir w +:+ "/" +:+ "beye-" +:+ n)).
      by rewrite !string_append_assoc.
    + apply (Hsuffix (tempdir w +:+ "beye-" +:+ n)).
      by rewrite !string_append_assoc.
Qed.

Lemma mkdir_creatable p w :
  creatable (fs w) p = true →
  mkdir p w
  = (Ok tt, add_event (EvMkdir (fs_key p)) (set_fs (<[fs_key p := Dir]> (fs w)) w)).
Proof.
  unfold creatable, mkdir. intros [[Hk Hfree]%andb_true_iff Hpar]%andb_true_iff.
  apply negb_true_iff in Hk, Hfree. by rewrite Hk, Hfree, Hpar.
Qed.

Lemma mkdir_taken p w :
  taken (fs w) p = true → mkdir p w = (Raise (OSError EEXIST p), w).
Proof.
  unfold taken, mkdir. intros [Hk Htaken]%andb_true_iff.
  apply negb_true_iff in Hk. by rewrite Hk, Htaken.
Qed.

Lemma mkdir_Ok p w u w' :
  mkdir p w = (Ok u, w') →
  creatable (fs w) p = true
  ∧ w' = add_event (EvMkdir (fs_key p)) (set_fs (<[fs_key p := Dir]> (fs w)) w).
Proof.
  unfold creatable, mkdir.
  destruct (String.eqb (fs_key p) ""); [done|].
  destruct (bool_decide _); [done|].
  destruct (_ || _); [|by destruct (path_exists _ _)]. by intros [= <- <-].
Qed.

Lemma mkdir_Raise p w e w' : mkdir p w = (Raise e, w') → w' = w.
Proof.
  unfold mkdir.
  destruct (String.eqb (fs_key p) ""); [by intros [= _ <-]|].
  destruct (bool_decide _); [by intros [= _ <-]|].
  destruct (_ || _); [done|].
  destruct (path_exists _ _); by intros [= _ <-].
Qed.

Lemma creatable_not_taken f p : creatable f p = true → taken f p = false.
Proof.
  unfold creatable, taken. intros [[Hk Hfree]%andb_true_iff _]%andb_true_iff.
  apply negb_true_iff in Hfree. rewrite Hfree. by destruct (negb _).
Qed.

(** What [mkdtemp] returns was drawn, was free, and is now a directory. *)
Lemma mkdtemp_from_Ok prefix suffix dir names : ∀ w file w',
  mkdtemp_from names dir prefix suffix w = (Ok file, w') →
  (∃ n, n ∈ names ∧ file = path_join dir (prefix +:+ n +:+ suffix))
  ∧ creatable (fs w) file = true
  ∧ fs w' = <[fs_key file := Dir]> (fs w)
  ∧ tempdir w' = tempdir w.
Proof.
  induction names as [|n names IH]; intros w file w'; simpl; [done|].
  destruct (mkdir _ (set_candidates names w)) as [[u|e] w1] eqn:Hmk.
  - intros [= <- <-]. apply mkdir_Ok in Hmk as [Hc ->]. simpl in *.
    repeat split; [|done]. eexists. split; [by left|done].
  - apply mkdir_Raise in Hmk as ->.
    destruct e as [| |[] p| | |]; try done.
    intros (Hn & Hc & Hfs & Ht)%IH. simpl in *.
    repeat split; try done. destruct Hn as (m & Hm & ->).
    exists m. split; [by right|done].
Qed.

(** Names whose paths exist are skipped; the first free one is made. *)
Lemma mkdtemp_from_skips prefix suffix dir skipped : ∀ w n rest,
  Forall (fun m => taken (fs w) (path_join dir (prefix +:+ m +:+ suffix)) = true)
         skipped →
  creatable (fs w) (path_join dir (prefix +:+ n +:+ suffix)) = true →
  (mkdtemp_from (skipped ++ n :: rest) dir prefix suffix w).1
  = Ok (path_join dir (prefix +:+ n +:+ suffix)).
Proof.
  induction skipped as [|m skipped IH]; intros w n rest Hsk Hc; simpl.
  - rewrite mkdir_creatable by done. done.
  - apply Forall_cons in Hsk as [Hm Hsk].
    rewrite mkdir_taken by done. by apply IH.
Qed.

(** C9, as the code has it: only the hint ["/tmp"] asks for a fresh
    directory, and that directory is made in the default temporary
    directory of the platform under a drawn name [beye-<name>.out] whose
    path was free; names whose paths exist are passed over.  Any other
    hint is created as given: the call fails with [OSError] ([EEXIST])
    when the path exists, goes through when the path is free and its
    parent is a directory, and whenever it goes through the directory
    made is exactly the hint. *)
Theorem C9_acquisition (hint : string) (w : world) :
  (hint = "/tmp" →
     (∀ name w', ReportDirectory_create (PStr hint) w = (Ok name, w') →
        (∃ n, n ∈ candidates w ∧ name = temp_path w n)
        ∧ name ≠ hint
        ∧ taken (fs w) name = false
        ∧ fs w' = <[fs_key name := Dir]> (fs w))
     ∧ (∀ skipped n rest,
          candidates w = skipped ++ n :: rest →
          Forall (fun m => taken (fs w) (temp_path w m) = true) skipped →
          creatable (fs w) (temp_path w n) = true →
          (ReportDirectory_create (PStr hint) w).1 = Ok (temp_path w n)))
  ∧ (hint ≠ "/tmp" →
     (taken (fs w) hint = true →
        ReportDirectory_create (PStr hint) w = (Raise (OSError EEXIST hint), w))
     ∧ (creatable (fs w) hint = true →
        ∃ w', ReportDirectory_create (PStr hint) w = (Ok hint, w')
              ∧ fs w' = <[fs_key hint := Dir]> (fs w))
     ∧ (∀ name w', ReportDirectory_create (PStr hint) w = (Ok name, w') →
        name = hint ∧ fs w' = <[fs_key hint := Dir]> (fs w))).
Proof.
  split.
  - intros ->. unfold ReportDirectory_create, mkdtemp. simpl. split.
    + intros name w' (Hn & Hc & Hfs & _)%mkdtemp_from_Ok.
      destruct Hn as (n & Hn & ->). repeat split; try done.
      * by exists n.
      * apply temp_path_not_tmp.
      * by apply creatable_not_taken.
    + intros skipped n rest -> Hsk Hc. by apply mkdtemp_from_skips.
  - intros Hne. apply String.eqb_neq in Hne.
    unfold ReportDirectory_create, py_eq_str.
    rewrite String.eqb_sym, Hne. simpl. unfold bind, ret. split; [|split].
    + intros Ht. by rewrite mkdir_taken.
    + intros Hc. rewrite mkdir_creatable by done. by eexists.
    + intros name w'. destruct (mkdir hint w) as [[u|e] w1] eqn:Hmk; [|done].
      intros [= <- <-]. by apply mkdir_Ok in Hmk as [_ ->].
Qed.

Lemma C9_acquisition_witness :
  (ReportDirectory_create (PStr "/tmp") sample_world_tmpdir).1
    = Ok "/var/tmp/beye-k3x9qa.out"
  ∧ (ReportDirectory_create (PStr "/tmp") sample_world).1
    = Ok "/tmp/beye-w81mzp.out"
  ∧ ReportDirectory_create (PStr "/var/tmp") sample_world
    = (Raise (OSError EEXIST "/var/tmp"), sample_world)
  ∧ ∃ w', ReportDirectory_create (PStr "/proj/out") sample_world
          = (Ok "/proj/out", w').
Proof.
  destruct (proj1 (C9_acquisition "/tmp" sample_world_tmpdir) eq_refl)
    as [_ H1].
  destruct (proj1 (C9_acquisition "/tmp" sample_world) eq_refl) as [_ H2].
  assert ("/var/tmp" ≠ "/tmp") as Hvar by done.
  assert ("/proj/out" ≠ "/tmp") as Hout by done.
  destruct (proj2 (C9_acquisition "/var/tmp" sample_world) Hvar) as [H3 _].
  destruct (proj2 (C9_acquisition "/proj/out" sample_world) Hout)
    as (_ & H4 & _).
  split; [|split; [|split]].
  - apply (H1 [] "k3x9qa" ["w81mzp"]); [done|constructor|by vm_compute].
  - apply (H2 ["k3x9qa"] "w81mzp" []);
      [done|repeat constructor|by vm_compute].
  - apply H3. by vm_compute.
  - destruct H4 as (w' & Hw' & _); [by vm_compute|]. by exists w'.
Defined.

(** C9, as stated, fails twice over: with the hint ["/tmp"] the fresh
    directory lands in the default temporary directory, which need not
    be the hint; and another temporary directory given as the hint is
    taken literally, so acquisition fails because it exists. *)
Lemma C9_counterexample :
  (ReportDirectory_create (PStr "/tmp") sample_world_tmpdir).1
    = Ok "/var/tmp/beye-k3x9qa.out"
  ∧ under "/tmp" "/var/tmp/beye-k3x9qa.out" = false
  ∧ isdir sample_fs "/var/tmp" = true
  ∧ (ReportDirectory_create (PStr "/var/tmp") sample_world).1
    = Raise (OSError EEXIST "/var/tmp").
Proof. by vm_compute. Qed.

(** C5: at release, a directory that exists stays exactly when it holds
    something or the keep option is set; a directory that holds
    something is left as it is; an empty one without the keep option is
    removed.  The release step itself does not fail. *)
Theorem C5_release (self : ReportDirectory) (w : world) :
  isdir (fs w) (rd_name self) = true →
  let w' := (ReportDirectory_exit self w).2 in
  (ReportDirectory_exit self w).1 = Ok tt
  ∧ (isdir (fs w') (rd_name self) = true
     ↔ dir_empty (fs w) (rd_name self) = false
       ∨ py_truthy (rd_keep self) = true)
  ∧ (dir_empty (fs w) (rd_name self) = false → fs w' = fs w)
  ∧ (dir_empty (fs w) (rd_name self) = true →
     py_truthy (rd_keep self) = false →
     fs w' = delete (fs_key (rd_name self)) (fs w)
     ∧ path_exists (fs w') (rd_name self) = false).
Proof.
  intros Hdir. unfold ReportDirectory_exit, bind, listdir, dir_empty.
  rewrite Hdir.
  destruct (children (fs w) (fs_key (rd_name self))) as [|c cs] eqn:Hch; simpl.
  - destruct (py_truthy (rd_keep self)) eqn:Hkeep; simpl.
    + rewrite Hdir. repeat split; try done. by right.
    + unfold rmdir. rewrite Hdir, Hch. simpl.
      assert (isdir (delete (fs_key (rd_name self)) (fs w)) (rd_name self)
              = false) as Hgone.
      { unfold isdir. rewrite lookup_delete_eq. by destruct (negb _). }
      rewrite Hgone. repeat split; try done.
      * by intros [|].
      * unfold path_exists. rewrite lookup_delete_eq.
        rewrite bool_decide_eq_false_2; [by destruct (negb _)|].
        by intros [? ?].
  - rewrite Hdir. repeat split; try done. by left.
Qed.

Lemma C5_release_witness :
  let kept := {| rd_name := "/proj"; rd_keep := PBool false |} in
  let removed := {| rd_name := "/tmp/beye-k3x9qa.out"; rd_keep := PBool false |} in
  (ReportDirectory_exit kept sample_world).1 = Ok tt
  ∧ fs (ReportDirectory_exit kept sample_world).2 = sample_fs
  ∧ path_exists (fs (ReportDirectory_exit removed sample_world).2)
      "/tmp/beye-k3x9qa.out" = false.
Proof.
  intros kept removed.
  assert (isdir (fs sample_world) (rd_name kept) = true) as Hk by by vm_compute.
  assert (isdir (fs sample_world) (rd_name removed) = true) as Hr
    by by vm_compute.
  destruct (C5_release kept sample_world Hk) as (Hok & _ & Hsame & _).
  destruct (C5_release removed sample_world Hr) as (_ & _ & _ & Hgone).
  split; [exact Hok|]. split.
  - apply Hsame. by vm_compute.
  - apply Hgone; by vm_compute.
Defined.

(** ** What a computation adds to the trace *)

Section Quiet.

Context {X : Type} (sel : event → option X).

Lemma quiet_ret {A} (a : A) : quiet sel (ret a).
Proof. by intros w. Qed.

Lemma quiet_raise {A} e : quiet sel (raise (A:=A) e).
Proof. by intros w. Qed.

Lemma quiet_lift {A} (o : outcome A) : quiet sel (lift o).
Proof. by intros w. Qed.

Lemma quiet_bind {A B} (m : M A) (k : A → M B) :
  quiet sel m → (∀ a, quiet sel (k a)) → quiet sel (bind m k).
Proof.
  intros Hm Hk w. unfold bind. specialize (Hm w).
  destruct (m w) as [[a|e] w1]; simpl in *; [|done].
  by rewrite Hk.
Qed.

Lemma quiet_add_event e w :
  sel e = None → omap sel (events (add_event e w)) = omap sel (events w).
Proof. intros He. simpl. rewrite omap_app. simpl. rewrite He. apply app_nil_r. Qed.

Lemma quiet_logging level msg : quiet sel (logging level msg).
Proof. by intros w. Qed.

Lemma quiet_listdir p : quiet sel (listdir p).
Proof.
  intros w. unfold listdir. destruct (isdir _ _); [done|].
  by destruct (path_exists _ _).
Qed.

Lemma quiet_open_read path : quiet sel (open_read path).
Proof.
  intros w. unfold open_read. destruct path as [| | |p|]; try done.
  destruct (String.eqb p ""); [done|]. by destruct (fs w !! fs_key p) as [[]|].
Qed.

Lemma quiet_json_load h : quiet sel (json_load h).
Proof. destruct h; [apply quiet_ret|apply quiet_raise]. Qed.

Lemma quiet_uname : quiet sel uname.
Proof. intros w. unfold uname. by destruct (uname_out w). Qed.

Lemma quiet_require ks args : quiet sel (require ks args).
Proof.
  induction ks as [|k ks IH]; simpl; [apply quiet_ret|].
  destruct (dict_in k args); [done|apply quiet_raise].
Qed.

Lemma quiet_common files : quiet sel (common files).
Proof.
  intros w. unfold common. destruct (fold_left _ _ _); [|done].
  by destruct (negb _).
Qed.

Lemma quiet_get_prefix_from db : quiet sel (get_prefix_from db).
Proof.
  unfold get_prefix_from, filenames.
  repeat (apply quiet_bind; [|intros ?]);
    auto using quiet_open_read, quiet_json_load, quiet_ret, quiet_common.
Qed.

Lemma quiet_log_lines rstrip lines : quiet sel (log_lines rstrip lines).
Proof.
  induction lines as [|l lines IH]; simpl; [apply quiet_ret|].
  apply quiet_bind; [apply quiet_logging|done].
Qed.

Lemma quiet_consume rstrip current : quiet sel (consume rstrip current).
Proof.
  unfold consume. destruct current as [[[[[lines|] code]|]]|]; simpl.
  - apply quiet_log_lines.
  - apply quiet_raise.
  - apply quiet_ret.
  - apply quiet_ret.
Qed.

Section Directories.

Hypothesis sel_mkdir : ∀ p, sel (EvMkdir p) = None.
Hypothesis sel_rmdir : ∀ p, sel (EvRmdir p) = None.

Lemma quiet_mkdir p : quiet sel (mkdir p).
Proof.
  intros w. unfold mkdir. destruct (String.eqb _ _); [done|].
  destruct (bool_decide _); [done|].
  destruct (_ || _); [|by destruct (path_exists _ _)].
  cbn [snd]. by rewrite quiet_add_event.
Qed.

Lemma quiet_rmdir p : quiet sel (rmdir p).
Proof.
  intros w. unfold rmdir.
  destruct (negb _); [by destruct (path_exists _ _)|].
  destruct (children _ _); [|done]. cbn [snd]. by rewrite quiet_add_event.
Qed.

Lemma quiet_mkdtemp_from names dir prefix suffix :
  quiet sel (mkdtemp_from names dir prefix suffix).
Proof.
  induction names as [|n names IH]; intros w; simpl; [done|].
  pose proof (quiet_mkdir (path_join dir (prefix +:+ n +:+ suffix))
                (set_candidates names w)) as Hmk.
  destruct (mkdir _ _) as [[u|e] w1]; simpl in *; [done|].
  destruct e as [| |[] p| | |]; simpl; try done. by rewrite IH.
Qed.

Lemma quiet_create hint : quiet sel (ReportDirectory_create hint).
Proof.
  unfold ReportDirectory_create. destruct (negb _).
  - destruct hint; try apply quiet_raise.
    apply quiet_bind; [apply quiet_mkdir|intros; apply quiet_ret].
  - intros w. apply quiet_mkdtemp_from.
Qed.

Lemma quiet_init hint keep : quiet sel (ReportDirectory_init hint keep).
Proof.
  apply quiet_bind; [apply quiet_create|intros; apply quiet_ret].
Qed.

Lemma quiet_exit self : quiet sel (ReportDirectory_exit self).
Proof.
  unfold ReportDirectory_exit.
  apply quiet_bind; [apply quiet_listdir|intros entries].
  apply quiet_bind; [|intros; apply quiet_logging].
  destruct entries; [|apply quiet_ret].
  destruct (py_truthy _); [apply quiet_ret|].
  apply quiet_bind; [apply quiet_rmdir|intros; apply quiet_ret].
Qed.

Lemma quiet_with {A} hint keep (body : string → M A) :
  (∀ name, quiet sel (body name)) → quiet sel (with_ReportDirectory hint keep body).
Proof.
  intros Hbody w. unfold with_ReportDirectory.
  pose proof (quiet_init hint keep w) as Hinit.
  destruct (ReportDirectory_init hint keep w) as [[self|e] w1];
    simpl in *; [|done].
  pose proof (Hbody (rd_name self) w1) as Hb.
  destruct (body (rd_name self) w1) as [r w2]; simpl in *.
  pose proof (quiet_exit self w2) as Hexit.
  destruct (ReportDirectory_exit self w2) as [[u|e] w3]; simpl in *; congruence.
Qed.

End Directories.

End Quiet.
(** ** The deduplicator: first occurrences *)

Section DeduplicatorFacts.

Context {E K : Type} `{Countable K}.
Implicit Types (p : predicate_object (E:=E) (K:=K)) (entries : list E).

Lemma predicate_unique p e : unique (predicate p e).2 = unique p.
Proof. unfold predicate. by case_decide. Qed.

Lemma predicate_state p e :
  state (predicate p e).2 = state p ∪ {[unique p e]}.
Proof.
  unfold predicate. case_decide as Hin; simpl; [done|].
  apply set_eq. intros k. rewrite elem_of_union, elem_of_singleton.
  split; [tauto|]. intros [?| ->]; done.
Qed.

Lemma predicate_answer p e :
  (predicate p e).1 = bool_decide (unique p e ∈ state p).
Proof.
  unfold predicate. case_decide as Hin; simpl.
  - by rewrite bool_decide_eq_false_2.
  - by rewrite bool_decide_eq_true_2.
Qed.

Lemma answers_cons p e entries :
  answers p (e :: entries) = (predicate p e).1 :: answers (predicate p e).2 entries.
Proof. simpl. by destruct (predicate p e). Qed.

Lemma first_occurrences_cons p e entries :
  first_occurrences p (e :: entries) =
    if (predicate p e).1 then first_occurrences (predicate p e).2 entries
    else e :: first_occurrences (predicate p e).2 entries.
Proof. simpl. by destruct (predicate p e). Qed.

Lemma answers_lookup entries : ∀ p i e,
  entries !! i = Some e →
  answers p entries !! i =
    Some (bool_decide (unique p e ∈ state p ∨ unique p e ∈ unique p <$> take i entries)).
Proof.
  induction entries as [|x entries IH]; intros p i e Hi; [done|].
  rewrite answers_cons. destruct i as [|i]; simpl in *.
  - injection Hi as ->. rewrite predicate_answer. f_equal.
    apply bool_decide_ext. rewrite elem_of_nil. tauto.
  - rewrite (IH _ _ _ Hi), predicate_unique, predicate_state. f_equal.
    apply bool_decide_ext. rewrite elem_of_cons, elem_of_union, elem_of_singleton.
    tauto.
Qed.

Lemma answers_app entries : ∀ p post,
  take (length entries) (answers p (entries ++ post)) = answers p entries.
Proof.
  induction entries as [|x entries IH]; intros p post; [done|].
  rewrite <- app_comm_cons, !answers_cons. simpl. by rewrite IH.
Qed.

Lemma answers_length entries : ∀ p, length (answers p entries) = length entries.
Proof.
  induction entries as [|x entries IH]; intros p; [done|].
  rewrite answers_cons. simpl. by rewrite IH.
Qed.

Lemma first_occurrences_zip entries : ∀ p,
  first_occurrences p entries =
    fst <$> filter (λ eb : E * bool, eb.2 = false) (zip entries (answers p entries)).
Proof.
  induction entries as [|x entries IH]; intros p; [done|].
  rewrite first_occurrences_cons, answers_cons. simpl.
  destruct (predicate p x).1.
  - rewrite filter_cons_False by done. apply IH.
  - rewrite filter_cons_True by done. simpl. by rewrite IH.
Qed.

Lemma first_occurrences_sublist entries : ∀ p,
  sublist (first_occurrences p entries) entries.
Proof.
  induction entries as [|x entries IH]; intros p; [constructor|].
  rewrite first_occurrences_cons. destruct (predicate p x).1.
  - apply sublist_cons, IH.
  - apply sublist_skip, IH.
Qed.

Lemma first_occurrences_fresh entries : ∀ p e,
  e ∈ first_occurrences p entries → unique p e ∉ state p.
Proof.
  induction entries as [|x entries IH]; intros p e; [by rewrite elem_of_nil|].
  rewrite first_occurrences_cons, predicate_answer.
  case_bool_decide as Hx.
  - intros He%IH. rewrite predicate_unique, predicate_state in He. set_solver.
  - rewrite elem_of_cons. intros [->|He%IH]; [done|].
    rewrite predicate_unique, predicate_state in He. set_solver.
Qed.

Lemma first_occurrences_NoDup entries : ∀ p,
  NoDup (unique p <$> first_occurrences p entries).
Proof.
  induction entries as [|x entries IH]; intros p; [constructor|].
  rewrite first_occurrences_cons, predicate_answer.
  pose proof (IH (predicate p x).2) as IH'. rewrite predicate_unique in IH'.
  case_bool_decide as Hx; [done|].
  rewrite fmap_cons. apply NoDup_cons. split; [|done].
  intros (e & Heq & He%first_occurrences_fresh)%list_elem_of_fmap.
  rewrite predicate_unique, predicate_state in He. set_solver.
Qed.

Lemma first_occurrences_complete entries : ∀ p e,
  e ∈ entries →
  unique p e ∈ state p ∨ unique p e ∈ unique p <$> first_occurrences p entries.
Proof.
  induction entries as [|x entries IH]; intros p e; [by rewrite elem_of_nil|].
  rewrite first_occurrences_cons, predicate_answer, elem_of_cons.
  intros [->|He].
  - case_bool_decide; [by left|]. right. rewrite fmap_cons. set_solver.
  - specialize (IH (predicate p x).2 e He).
    rewrite predicate_unique, predicate_state in IH.
    case_bool_decide as Hx.
    + destruct IH as [IH|IH]; [|by right]. left.
      apply elem_of_union in IH as [IH|IH%elem_of_singleton]; [done|].
      by rewrite IH.
    + rewrite fmap_cons, elem_of_cons.
      destruct IH as [IH|IH]; [|by right; right].
      apply elem_of_union in IH as [IH|IH%elem_of_singleton]; [by left|].
      by right; left.
Qed.

End DeduplicatorFacts.

(** C8: the predicate built by [duplicate_check] answers [false] on the
    first occurrence of an identity and [true] on every repeat: the
    answer at position [i] says whether the identity occurs among the
    records before [i].  The answers on a prefix do not depend on what
    follows (one pass, no look-ahead).  The records answered [false]
    have pairwise distinct identities, keep their relative order, and
    cover every identity of the sequence. *)
Theorem C8_first_occurrence_filter {E K : Type} `{Countable K}
    (method : E → K) (entries : list E) :
  let p := duplicate_check method in
  (∀ i e, entries !! i = Some e →
     answers p entries !! i =
       Some (bool_decide (method e ∈ method <$> take i entries)))
  ∧ (∀ post,
       take (length entries) (answers p (entries ++ post)) = answers p entries)
  ∧ first_occurrences p entries =
      fst <$> filter (λ eb : E * bool, eb.2 = false) (zip entries (answers p entries))
  ∧ NoDup (method <$> first_occurrences p entries)
  ∧ sublist (first_occurrences p entries) entries
  ∧ (∀ e, e ∈ entries → method e ∈ method <$> first_occurrences p entries).
Proof.
  intros p. repeat split.
  - intros i e Hi. rewrite (answers_lookup _ _ _ _ Hi). f_equal.
    apply bool_decide_ext. simpl. rewrite elem_of_empty. tauto.
  - intros post. apply answers_app.
  - apply first_occurrences_zip.
  - apply (first_occurrences_NoDup entries p).
  - apply first_occurrences_sublist.
  - intros e He. destruct (first_occurrences_complete entries p e He) as [Hin|Hin];
      [by apply elem_of_empty in Hin|done].
Qed.

(** ** Consuming results *)

Lemma log_lines_log_all rstrip lines : ∀ w,
  log_lines rstrip lines w = (Ok tt, log_all rstrip lines w).
Proof.
  induction lines as [|l lines IH]; intros w; [done|].
  simpl. unfold bind, logging. by rewrite IH.
Qed.

Lemma consume_lines rstrip current lines w :
  diagnostic_lines current = Some lines →
  consume rstrip current w = (Ok tt, log_all rstrip lines w).
Proof.
  unfold diagnostic_lines, consume.
  destruct current as [[[[lo code]|]]|]; simpl.
  - intros ->. apply log_lines_log_all.
  - by intros [= <-].
  - by intros [= <-].
Qed.

Lemma analyze_all_Ok rstrip run work : ∀ w,
  (∀ p f, diagnostic_lines (run p f).1 ≠ None) →
  (analyze_all rstrip run work w).1 = Ok tt.
Proof.
  intros w Hrun. revert w.
  induction work as [|p work IH]; intros w; [done|].
  simpl. unfold bind, dispatch. specialize (Hrun p (fs w)).
  destruct (run p (fs w)) as [current f]; simpl in *.
  destruct (diagnostic_lines current) as [lines|] eqn:Hl; [|done].
  rewrite (consume_lines _ _ _ _ Hl). apply IH.
Qed.

(** C6, as the code has it: a result that is missing, or that has no
    analyzer data, is consumed without raising and logs nothing; a result
    whose analyzer data carries [error_output] has every line, stripped
    on the right, logged at [INFO] in order, without raising; analyzer
    data without [error_output] raises [KeyError].  When no result is of
    that last kind the loop over the results runs to its end. *)
Theorem C6_consume_result (rstrip : string → string)
    (current : option analysis_result) (w : world) :
  (∀ lines, diagnostic_lines current = Some lines →
     consume rstrip current w = (Ok tt, log_all rstrip lines w))
  ∧ (diagnostic_lines current = None →
     consume rstrip current w = (Raise (KeyError "error_output"), w))
  ∧ (∀ run work,
       (∀ p f, diagnostic_lines (run p f).1 ≠ None) →
       (analyze_all rstrip run work w).1 = Ok tt).
Proof.
  split; [|split].
  - intros lines. apply consume_lines.
  - unfold diagnostic_lines, consume.
    destruct current as [[[[lo code]|]]|]; simpl; try done. by intros ->.
  - intros run work Hrun. by apply analyze_all_Ok.
Qed.

Lemma C6_consume_result_witness :
  consume sample_rstrip None sample_world = (Ok tt, sample_world)
  ∧ log (consume sample_rstrip
           (Some {| ar_analyzer :=
                      Some {| ai_error_output := Some ["a.c:1: warning"; "1 warning"];
                              ai_exit_code := 0 |} |})
           sample_world).2
    = [LogMsg INFO "a.c:1: warning"; LogMsg INFO "1 warning"]
  ∧ consume sample_rstrip (Some bare_result) sample_world
    = (Raise (KeyError "error_output"), sample_world)
  ∧ (analyze_all sample_rstrip sample_run [] sample_world).1 = Ok tt.
Proof.
  destruct (C6_consume_result sample_rstrip None sample_world)
    as (Hnone & _ & Hloop).
  destruct (C6_consume_result sample_rstrip
              (Some {| ar_analyzer :=
                         Some {| ai_error_output :=
                                   Some ["a.c:1: warning"; "1 warning"];
                                 ai_exit_code := 0 |} |})
              sample_world) as (Hlines & _ & _).
  destruct (C6_consume_result sample_rstrip (Some bare_result) sample_world)
    as (_ & Hbare & _).
  split; [|split; [|split]].
  - apply (Hnone []). reflexivity.
  - rewrite (Hlines ["a.c:1: warning"; "1 warning"] eq_refl). reflexivity.
  - apply Hbare. reflexivity.
  - apply Hloop. intros p f. discriminate.
Defined.

(** C6, as stated, fails: a result with analyzer data but without
    [error_output] makes the loop raise [KeyError]. *)
Lemma C6_counterexample :
  ar_analyzer bare_result ≠ None
  ∧ (ar_analyzer bare_result ≫= ai_error_output) = None
  ∧ consume sample_rstrip (Some bare_result) sample_world
    = (Raise (KeyError "error_output"), sample_world).
Proof. by vm_compute. Qed.

(** ** The common prefix *)

Lemma get_prefix_from_empty p w :
  p ≠ "" → fs w !! fs_key p = Some (File (Some [])) →
  get_prefix_from (PStr p) w = (Ok "", w).
Proof.
  intros Hp%String.eqb_neq Hfile.
  unfold get_prefix_from, filenames, bind, open_read. by rewrite Hp, Hfile.
Qed.

(** C7, on the code: an empty database gives the empty string; but for
    the entries [/proj/lib/a.c] and [/proj/libfoo/b.c] the resolver
    returns [/proj/lib]: the character-wise common prefix of the two
    directories, which happens to be a directory, although
    [/proj/libfoo] does not lie under it.  The longest common directory
    is [/proj]. *)
Theorem C7_prefix_through_a_name :
  (∀ p w, p ≠ "" → fs w !! fs_key p = Some (File (Some [])) →
     get_prefix_from (PStr p) w = (Ok "", w))
  ∧ fs sample_world !! "compile_commands.json"
    = Some (File (Some [lib_a; libfoo_b]))
  ∧ get_prefix_from (PStr "compile_commands.json") sample_world
    = (Ok "/proj/lib", sample_world)
  ∧ under "/proj/lib" (dirname (ce_file lib_a)) = true
  ∧ under "/proj/lib" (dirname (ce_file libfoo_b)) = false
  ∧ under "/proj" (dirname (ce_file lib_a)) = true
  ∧ under "/proj" (dirname (ce_file libfoo_b)) = true.
Proof.
  split; [apply get_prefix_from_empty|]. by vm_compute.
Qed.

Lemma C7_prefix_through_a_name_witness :
  get_prefix_from (PStr "empty.json") sample_world = (Ok "", sample_world).
Proof.
  apply (proj1 C7_prefix_through_a_name "empty.json" sample_world).
  - discriminate.
  - by vm_compute.
Defined.

(** ** Exit value *)

(** C1, on the code: [status_bugs] is a key of every parsed namespace,
    so [main] hands back the number of bugs whether or not
    [--status-bugs] was given, and hands back the count itself, not 1. *)
Theorem C1_exit_value_is_bug_count :
  (∀ argv args, parse_command_line argv = Ok args →
     dict_in "status_bugs" args = true)
  ∧ (main sample_repr sample_rstrip sample_run (sample_report 2)
       [] sample_world).1 = Ok 2
  ∧ (main sample_repr sample_rstrip sample_run (sample_report 2)
       [OptStatusBugs] sample_world).1 = Ok 2
  ∧ (main sample_repr sample_rstrip sample_run (sample_report 2)
       [OptPlist] sample_world).1 = Ok 0.
Proof.
  split; [|by vm_compute].
  intros argv args Hok%parse_command_line_ok.
  destruct (namespace_ok_bool "status_bugs" args Hok) as [b Hb]; [set_solver|].
  unfold dict_in. by rewrite Hb.
Qed.

Lemma C1_exit_value_is_bug_count_witness :
  dict_in "status_bugs" defaults = true.
Proof.
  apply (proj1 C1_exit_value_is_bug_count [] defaults). reflexivity.
Defined.

(** ** The run as a whole: the report step *)

Section RunFacts.

Variable repr_list : list string → string.
Variable rstrip : string → string.
Variable run :
  dispatch_params → gmap string node → option analysis_result * gmap string node.
Variable generate_report :
  report_args → gmap string node → outcome Z * gmap string node.

Lemma quiet_common_params {X} (sel : event → option X) out_dir opts :
  quiet sel (common_params repr_list out_dir opts).
Proof.
  unfold common_params.
  repeat (apply quiet_bind; [|intros ?]);
    auto using quiet_lift, quiet_uname, quiet_ret.
Qed.

Lemma quiet_make_pool {X} (sel : event → option X) s :
  (∀ b, sel (EvPool b) = None) → quiet sel (make_pool s).
Proof. intros Hsel w. unfold make_pool. cbn [snd]. by rewrite quiet_add_event. Qed.

Lemma quiet_dispatch params :
  quiet sel_report (dispatch run params).
Proof.
  intros w. unfold dispatch. destruct (run params (fs w)) as [r f].
  cbn [snd]. change (events (set_fs f ?w')) with (events w').
  by rewrite quiet_add_event.
Qed.

Lemma quiet_analyze_all work :
  quiet sel_report (analyze_all rstrip run work).
Proof.
  induction work as [|p work IH]; simpl; [apply quiet_ret|].
  apply quiet_bind; [apply quiet_dispatch|intros current].
  apply quiet_bind; [apply quiet_consume|done].
Qed.

Lemma quiet_run_analyzer args out_dir :
  quiet sel_report (run_analyzer repr_list rstrip run args out_dir).
Proof.
  unfold run_analyzer.
  repeat (apply quiet_bind; [|intros ?]);
    auto using quiet_require, quiet_lift, quiet_open_read, quiet_json_load,
      quiet_uname, quiet_ret, quiet_analyze_all.
  by apply quiet_make_pool.
Qed.

Lemma report_events ra w :
  events (report generate_report ra w).2 = events w ++ [EvReport ra].
Proof. unfold report. by destruct (generate_report ra (fs w)). Qed.

Lemma returns_bind {A B} (P : B → Prop) (m : M A) (k : A → M B) :
  (∀ a, returns P (k a)) → returns P (bind m k).
Proof.
  intros Hk w b. unfold bind. destruct (m w) as [[a|e] w1]; [|done]. apply Hk.
Qed.

Lemma returns_with {A} (P : A → Prop) hint keep (body : string → M A) :
  (∀ name, returns P (body name)) →
  returns P (with_ReportDirectory hint keep body).
Proof.
  intros Hbody w a. unfold with_ReportDirectory.
  destruct (ReportDirectory_init hint keep w) as [[self|e] w1]; [|done].
  specialize (Hbody (rd_name self) w1 a).
  destruct (body (rd_name self) w1) as [r w2].
  destruct (ReportDirectory_exit self w2) as [[u|e] w3]; [|done]. apply Hbody.
Qed.

Lemma reports_once_report ra : reports_once (report generate_report ra).
Proof.
  intros w a _. exists ra. unfold reports.
  rewrite report_events, omap_app. done.
Qed.

Lemma reports_once_after {A B} (m : M A) (k : A → M B) :
  quiet sel_report m → (∀ a, reports_once (k a)) → reports_once (bind m k).
Proof.
  intros Hm Hk w b. unfold bind. specialize (Hm w).
  destruct (m w) as [[a|e] w1]; simpl in *; [|done].
  intros Hb. destruct (Hk a w1 b Hb) as [ra Hra]. exists ra.
  unfold reports in *. by rewrite Hra, Hm.
Qed.

Lemma reports_once_before {A B} (m : M A) (k : A → M B) :
  reports_once m → (∀ a, quiet sel_report (k a)) → reports_once (bind m k).
Proof.
  intros Hm Hk w b. unfold bind. specialize (Hm w).
  destruct (m w) as [[a|e] w1] eqn:Hmw; simpl in *; [|done].
  intros Hb. destruct (Hm a eq_refl) as [ra Hra]. exists ra.
  unfold reports in *. by rewrite Hk.
Qed.

Lemma reports_once_with {A} hint keep (body : string → M A) :
  (∀ name, reports_once (body name)) →
  reports_once (with_ReportDirectory hint keep body).
Proof.
  intros Hbody w a. unfold with_ReportDirectory.
  pose proof (quiet_init sel_report (fun _ => eq_refl) hint keep w) as Hinit.
  destruct (ReportDirectory_init hint keep w) as [[self|e] w1];
    simpl in *; [|done].
  specialize (Hbody (rd_name self) w1 a).
  destruct (body (rd_name self) w1) as [r w2]; simpl in *.
  pose proof (quiet_exit sel_report (fun _ => eq_refl) self w2) as Hexit.
  destruct (ReportDirectory_exit self w2) as [[u|e] w3]; simpl in *; [|done].
  intros Hr. destruct (Hbody Hr) as [ra Hra]. exists ra.
  unfold reports in *. by rewrite Hexit, Hra, Hinit.
Qed.

Lemma needs_report_file_spec args :
  needs_report_file args = true
  ↔ dict_get "output_format" args = Some (PStr "html")
    ∨ dict_get "output_format" args = Some (PStr "plist-html").
Proof.
  unfold needs_report_file, dict_get_or_none, py_eq_str.
  destruct (dict_get "output_format" args) as [[| | |s|]|];
    try (simpl; split; [done|by intros [|]]).
  rewrite orb_true_iff, !String.eqb_eq.
  split; (intros [|]; [left|right]); congruence.
Qed.

Lemma main_body_without_report args :
  needs_report_file args = false →
  quiet sel_report (main_body repr_list rstrip run generate_report args)
  ∧ returns (fun n => n = 0)
      (main_body repr_list rstrip run generate_report args).
Proof.
  intros Hneeds. unfold main_body. rewrite Hneeds. split.
  - do 5 (apply quiet_bind;
          [first [by apply quiet_lift|by intros ?]|intros ?]).
    apply quiet_with; try done. intros name.
    apply quiet_bind; [apply quiet_run_analyzer|intros _].
    apply quiet_bind; [apply quiet_ret|intros ?; apply quiet_ret].
  - do 5 (apply returns_bind; intros ?).
    apply returns_with. intros name. apply returns_bind. intros _.
    intros w n. unfold bind, ret. simpl. destruct (dict_in _ _); by intros [= <-].
Qed.

Lemma main_body_with_report args :
  needs_report_file args = true →
  reports_once (main_body repr_list rstrip run generate_report args).
Proof.
  intros Hneeds. unfold main_body. rewrite Hneeds.
  do 5 (apply reports_once_after;
        [first [by apply quiet_lift|by intros ?]|intros ?]).
  apply reports_once_with. intros name.
  apply reports_once_after; [apply quiet_run_analyzer|intros _].
  apply reports_once_before; [|intros; apply quiet_ret].
  repeat (apply reports_once_after;
          [by auto using quiet_lift, quiet_get_prefix_from|intros ?]).
  apply reports_once_report.
Qed.

End RunFacts.

(** C10: the report step runs exactly when the output format is ['html']
    or ['plist-html'].  With any other format no report step appears in
    the trace and a run that returns returns 0; with one of the two
    formats a run that returns has run the report step exactly once. *)
Theorem C10_report_trigger
    (repr_list : list string → string) (rstrip : string → string)
    (run : dispatch_params → gmap string node
           → option analysis_result * gmap string node)
    (generate_report : report_args → gmap string node
                       → outcome Z * gmap string node)
    (args : pydict) (w : world) :
  let r := main_body repr_list rstrip run generate_report args w in
  (needs_report_file args = true
   ↔ dict_get "output_format" args = Some (PStr "html")
     ∨ dict_get "output_format" args = Some (PStr "plist-html"))
  ∧ (needs_report_file args = false →
     reports (events r.2) = reports (events w) ∧ ∀ n, r.1 = Ok n → n = 0)
  ∧ (needs_report_file args = true →
     ∀ n, r.1 = Ok n →
       ∃ ra, reports (events r.2) = reports (events w) ++ [ra]).
Proof.
  intros r. split; [apply needs_report_file_spec|]. split.
  - intros Hneeds.
    destruct (main_body_without_report repr_list rstrip run generate_report
                args Hneeds) as [Hq Hr].
    split; [apply Hq|]. intros n. apply Hr.
  - intros Hneeds n.
    apply (main_body_with_report repr_list rstrip run generate_report
             args Hneeds).
Qed.

Lemma C10_report_trigger_witness :
  let plist := dict_set "output_format" (PStr "plist") defaults in
  let r_plist :=
    main_body sample_repr sample_rstrip sample_run (sample_report 2)
      plist sample_world in
  let r_html :=
    main_body sample_repr sample_rstrip sample_run (sample_report 2)
      defaults sample_world in
  reports (events r_plist.2) = []
  ∧ r_plist.1 = Ok 0
  ∧ r_html.1 = Ok 2
  ∧ ∃ ra, reports (events r_html.2) = [ra].
Proof.
  intros plist r_plist r_html.
  destruct (C10_report_trigger sample_repr sample_rstrip sample_run
              (sample_report 2) plist sample_world) as (_ & Hno & _).
  destruct (C10_report_trigger sample_repr sample_rstrip sample_run
              (sample_report 2) defaults sample_world) as (_ & _ & Hyes).
  destruct Hno as [Hquiet Hzero]; [by vm_compute|].
  assert (r_html.1 = Ok 2) as Hhtml by by vm_compute.
  assert (∃ n, r_plist.1 = Ok n) as [n Hn] by (exists 0; by vm_compute).
  split; [exact Hquiet|]. split; [|split; [exact Hhtml|]].
  - fold r_plist in Hzero. rewrite Hn. f_equal. by apply Hzero.
  - apply (Hyes eq_refl 2 Hhtml).
Defined.

(** ** The run as a whole: a database that cannot be loaded *)

Lemma mkdir_frame p w1 w2 :
  fs w1 = fs w2 → (mkdir p w1).1 = (mkdir p w2).1.
Proof.
  intros Hfs. unfold mkdir. rewrite Hfs.
  destruct (String.eqb _ _); [done|]. destruct (bool_decide _); [done|].
  destruct (_ || _); [done|]. by destruct (path_exists _ _).
Qed.

Lemma mkdtemp_from_frame prefix suffix dir names : ∀ w1 w2,
  fs w1 = fs w2 →
  (mkdtemp_from names dir prefix suffix w1).1
  = (mkdtemp_from names dir prefix suffix w2).1.
Proof.
  induction names as [|n names IH]; intros w1 w2 Hfs; simpl; [done|].
  pose proof (mkdir_frame (path_join dir (prefix +:+ n +:+ suffix))
                (set_candidates names w1) (set_candidates names w2) Hfs) as Hmk.
  destruct (mkdir _ (set_candidates names w1)) as [[u1|e1] w1'] eqn:H1;
  destruct (mkdir _ (set_candidates names w2)) as [[u2|e2] w2'] eqn:H2;
    simpl in Hmk; try done.
  injection Hmk as <-.
  apply mkdir_Raise in H1 as ->. apply mkdir_Raise in H2 as ->.
  destruct e1 as [| |[] p| | |]; try done. by apply IH.
Qed.

(** Acquisition looks at the disk only, not at the log. *)
Lemma create_frame hint w1 w2 :
  fs w1 = fs w2 → tempdir w1 = tempdir w2 → candidates w1 = candidates w2 →
  (ReportDirectory_create hint w1).1 = (ReportDirectory_create hint w2).1.
Proof.
  intros Hfs Ht Hc. unfold ReportDirectory_create. destruct (negb _).
  - destruct hint as [| | |p|]; try done. unfold bind.
    pose proof (mkdir_frame p w1 w2 Hfs) as Hmk.
    destruct (mkdir p w1) as [[u1|e1] w1'], (mkdir p w2) as [[u2|e2] w2'];
      simpl in *; congruence.
  - unfold mkdtemp. rewrite Ht, Hc. by apply mkdtemp_from_frame.
Qed.

Lemma mkdtemp_from_events prefix suffix dir names : ∀ w file w',
  mkdtemp_from names dir prefix suffix w = (Ok file, w') →
  events w' = events w ++ [EvMkdir (fs_key file)].
Proof.
  induction names as [|n names IH]; intros w file w'; simpl; [done|].
  destruct (mkdir _ (set_candidates names w)) as [[u|e] w1] eqn:Hmk.
  - intros [= <- <-]. by apply mkdir_Ok in Hmk as [_ ->].
  - apply mkdir_Raise in Hmk as ->.
    destruct e as [| |[] p| | |]; try done. by intros ?%IH.
Qed.

Lemma create_Ok hint w name w' :
  ReportDirectory_create hint w = (Ok name, w') →
  creatable (fs w) name = true
  ∧ fs w' = <[fs_key name := Dir]> (fs w)
  ∧ events w' = events w ++ [EvMkdir (fs_key name)].
Proof.
  unfold ReportDirectory_create. destruct (negb _).
  - destruct hint as [| | |p|]; try done. unfold bind, ret.
    destruct (mkdir p w) as [[u|e] w1] eqn:Hmk; [|done].
    intros [= <- <-]. by apply mkdir_Ok in Hmk as [? ->].
  - unfold mkdtemp. intros Hmk.
    pose proof (mkdtemp_from_events _ _ _ _ _ _ _ Hmk).
    apply mkdtemp_from_Ok in Hmk as (_ & ? & ? & _). done.
Qed.

Lemma creatable_isdir f name :
  creatable f name = true → isdir (<[fs_key name := Dir]> f) name = true.
Proof.
  unfold creatable, isdir. intros [[Hk _]%andb_true_iff _]%andb_true_iff.
  rewrite lookup_insert_eq. simpl. rewrite andb_true_r.
  destruct (String.eqb name "") eqn:Hn; [|done].
  apply String.eqb_eq in Hn as ->. done.
Qed.

(** The release step, case by case. *)
Lemma exit_cases self w :
  isdir (fs w) (rd_name self) = true →
  (dir_empty (fs w) (rd_name self) = false
   ∧ ReportDirectory_exit self w
     = (Ok tt, add_log (LogMsg WARNING (msg_examine (rd_name self))) w))
  ∨ (dir_empty (fs w) (rd_name self) = true
     ∧ py_truthy (rd_keep self) = true
     ∧ ReportDirectory_exit self w
       = (Ok tt, add_log (LogMsg WARNING (msg_kept (rd_name self))) w))
  ∨ (dir_empty (fs w) (rd_name self) = true
     ∧ py_truthy (rd_keep self) = false
     ∧ ReportDirectory_exit self w
       = (Ok tt,
          add_log (LogMsg WARNING (msg_removing (rd_name self)))
            (add_event (EvRmdir (fs_key (rd_name self)))
               (set_fs (delete (fs_key (rd_name self)) (fs w)) w)))).
Proof.
  intros Hdir. unfold ReportDirectory_exit, bind, listdir, dir_empty.
  rewrite Hdir.
  destruct (children (fs w) (fs_key (rd_name self))) as [|c cs] eqn:Hch; simpl.
  - destruct (py_truthy (rd_keep self)); simpl.
    + right. by left.
    + right. right. unfold rmdir. by rewrite Hdir, Hch.
  - by left.
Qed.

Lemma database_insert_Dir f k p :
  database f p = None → database (<[k := Dir]> f) p = None.
Proof.
  unfold database. destruct (String.eqb p ""); [done|].
  destruct (decide (k = fs_key p)) as [->|Hne].
  - by rewrite lookup_insert_eq.
  - by rewrite lookup_insert_ne.
Qed.

Section LoadFailure.

Variable repr_list : list string → string.
Variable rstrip : string → string.
Variable run :
  dispatch_params → gmap string node → option analysis_result * gmap string node.

(** With no database to load, [run_analyzer] stops at [open] or at
    [json.load]: the disk is as it was, and at most the pool was made. *)
Lemma run_analyzer_unreadable args out_dir p s w :
  dict_get "input" args = Some (PStr p) →
  dict_get "sequential" args = Some s →
  database (fs w) p = None →
  ∃ e w',
    run_analyzer repr_list rstrip run args out_dir w = (Raise e, w')
    ∧ load_error p e
    ∧ fs w' = fs w
    ∧ (events w' = events w ∨ ∃ b, events w' = events w ++ [EvPool b]).
Proof.
  intros Hin Hseq Hdb.
  unfold run_analyzer, bind, lift, require, dict_in, dict_item, ret.
  rewrite Hin, Hseq. unfold open_read. unfold database in Hdb.
  destruct (String.eqb p "").
  { eexists _, _. split; [done|]. repeat split; [by left|by left]. }
  destruct (fs w !! fs_key p) as [[|[db|]]|] eqn:Hp; try done.
  - eexists _, _. split; [done|]. repeat split; [right; by left|by left].
  - eexists _, _. split; [done|]. repeat split; [by right; right|].
    right. by eexists.
  - eexists _, _. split; [done|]. repeat split; [by left|by left].
Qed.

End LoadFailure.

(** C4, as the code has it: when the database named on the command line
    is missing or does not parse, and the output directory could be
    acquired, the run fails with the error of opening or parsing the
    file; nothing was dispatched and no report step ran.  The output
    directory had been created by then; it is released as any other: it
    is still there afterwards exactly when it holds something or the
    keep option is set. *)
Theorem C4_load_failure
    (repr_list : list string → string) (rstrip : string → string)
    (run : dispatch_params → gmap string node
           → option analysis_result * gmap string node)
    (generate_report : report_args → gmap string node
                       → outcome Z * gmap string node)
    (argv : list cli_option) (args : pydict) (w : world)
    (p name : string) :
  parse_command_line argv = Ok args →
  dict_get "input" args = Some (PStr p) →
  database (fs w) p = None →
  (ReportDirectory_create (dict_get_or_none "output" args) w).1 = Ok name →
  let r := main repr_list rstrip run generate_report argv w in
  let made := <[fs_key name := Dir]> (fs w) in
  (∃ e, r.1 = Raise e ∧ load_error p e)
  ∧ dispatches (events r.2) = dispatches (events w)
  ∧ reports (events r.2) = reports (events w)
  ∧ EvMkdir (fs_key name) ∈ events r.2
  ∧ (isdir (fs r.2) name = true
     ↔ dir_empty made name = false
       ∨ py_truthy (dict_get_or_none "keep_empty" args) = true).
Proof.
  intros Hparse Hin Hdb Hcreate.
  pose proof (parse_command_line_ok _ _ Hparse) as Hok.
  destruct (namespace_ok_get "verbose" args Hok) as (v & Hv & _);
    [key_in_defaults|].
  destruct (namespace_ok_get "output" args Hok) as (o & Ho & _);
    [key_in_defaults|].
  destruct (namespace_ok_get "keep_empty" args Hok) as (k & Hk & _);
    [key_in_defaults|].
  destruct (namespace_ok_get "sequential" args Hok) as (s & Hs & _);
    [key_in_defaults|].
  unfold dict_get_or_none in *. rewrite Ho in Hcreate. rewrite Hk.
  unfold main, main_body, bind, lift, dict_item. rewrite Hparse, Hv, Ho, Hk.
  cbv zeta. unfold with_ReportDirectory, ReportDirectory_init, bind, ret.
  set (w0 := add_log _ (set_log_level _ w)).
  assert ((ReportDirectory_create o w0).1 = Ok name) as Hcreate0.
  { rewrite <- Hcreate. by apply create_frame. }
  destruct (ReportDirectory_create o w0) as [[name'|e] w1] eqn:Hc0;
    simpl in Hcreate0; [|done].
  injection Hcreate0 as ->. cbn [rd_name].
  apply create_Ok in Hc0 as (Hcr & Hfs1 & Hev1). simpl in Hcr, Hfs1, Hev1.
  destruct (run_analyzer_unreadable repr_list rstrip run args name p s w1
              Hin Hs)
    as (e & w2 & -> & Hload & Hfs2 & Hev2).
  { rewrite Hfs1. by apply database_insert_Dir. }
  assert (isdir (fs w2) name = true) as Hdir.
  { rewrite Hfs2, Hfs1. by apply creatable_isdir. }
  assert (dispatches (events w2) = dispatches (events w)
          ∧ reports (events w2) = reports (events w)
          ∧ EvMkdir (fs_key name) ∈ events w2) as (Hd2 & Hr2 & Hm2).
  { unfold dispatches, reports.
    destruct Hev2 as [->|[b ->]]; rewrite Hev1, ?omap_app; simpl;
      rewrite ?app_nil_r; repeat split; try done;
      rewrite ?elem_of_app, !elem_of_cons; tauto. }
  destruct (exit_cases {| rd_name := name; rd_keep := k |} w2 Hdir)
    as [[He ->]|[(He & Hkeep & ->)|(He & Hkeep & ->)]]; simpl in *;
    rewrite Hfs2, Hfs1 in He.
  - rewrite Hdir. split; [by exists e|]. repeat split; try done. by left.
  - rewrite Hdir. split; [by exists e|]. repeat split; try done. by right.
  - split; [by exists e|]. unfold dispatches, reports in *.
    rewrite !omap_app, Hd2, Hr2. simpl. rewrite !app_nil_r.
    repeat split; try done.
    + rewrite elem_of_app. by left.
    + unfold isdir. rewrite lookup_delete_eq. by destruct (negb _).
    + intros [Hcontra|Hcontra]; congruence.
Qed.

Lemma C4_load_failure_witness :
  let r := main sample_repr sample_rstrip sample_run (sample_report 2)
             [OptInput "missing.json"; OptKeepEmpty] sample_world in
  (∃ e, r.1 = Raise e ∧ load_error "missing.json" e)
  ∧ dispatches (events r.2) = []
  ∧ EvMkdir "/tmp/beye-w81mzp.out" ∈ events r.2
  ∧ isdir (fs r.2) "/tmp/beye-w81mzp.out" = true.
Proof.
  intros r.
  destruct (C4_load_failure sample_repr sample_rstrip sample_run
              (sample_report 2) [OptInput "missing.json"; OptKeepEmpty]
              (dict_set "keep_empty" (PBool true)
                 (dict_set "input" (PStr "missing.json") defaults))
              sample_world "missing.json" "/tmp/beye-w81mzp.out")
    as (Hfail & Hdisp & _ & Hmade & Hkept);
    [reflexivity|reflexivity|by vm_compute|by vm_compute|].
  split; [exact Hfail|]. split; [exact Hdisp|]. split; [exact Hmade|].
  apply Hkept. right. reflexivity.
Defined.

(** C4, as stated, fails: with a missing database the output directory
    is created before the failure, and with the keep option it is still
    there after the run. *)
Lemma C4_counterexample :
  let r := main sample_repr sample_rstrip sample_run (sample_report 2)
             [OptInput "missing.json"; OptKeepEmpty] sample_world in
  path_exists (fs sample_world) "missing.json" = false
  ∧ r.1 = Raise (OSError ENOENT "missing.json")
  ∧ path_exists (fs sample_world) "/tmp/beye-w81mzp.out" = false
  ∧ events r.2 = [EvMkdir "/tmp/beye-w81mzp.out"]
  ∧ isdir (fs r.2) "/tmp/beye-w81mzp.out" = true.
Proof. by vm_compute. Qed.

(** * Further properties *)

(** ** The parser *)

Lemma apply_option_assignment o st st' :
  apply_option o st = Ok st' →
  namespace st'
  = dict_set (dest o) ((assignment o).2 (dict_get (dest o) (namespace st)))
      (namespace st).
Proof.
  destruct o; cbn -[existsb dict_set dict_get];
    unfold store_choice, store_format, store;
    try (by intros [= <-]).
  - destruct (format_seen st) as [[]|]; by intros [= <-].
  - destruct (format_seen st) as [[]|]; by intros [= <-].
  - destruct (existsb _ _); by intros [= <-].
  - destruct (existsb _ _); by intros [= <-].
Qed.

(** One option, in closed form. *)
Lemma apply_option_step o st :
  apply_option o st
  = if valid_choice o && format_ok (format_seen st) o
    then Ok {| namespace :=
                 dict_set (dest o)
                   ((assignment o).2 (dict_get (dest o) (namespace st)))
                   (namespace st);
               format_seen := next_seen (format_seen st) o |}
    else Raise (SystemExit 2).
Proof.
  destruct o; cbn -[existsb dict_set dict_get];
    unfold store_choice, store_format, store, parser_error;
    try (by destruct (format_seen st) as [[]|]).
  - by destruct (existsb _ _), (format_seen st) as [[]|].
  - by destruct (existsb _ _), (format_seen st) as [[]|].
Qed.



Lemma parse_args_cons o argv st :
  parse_args (o :: argv) st
  = if valid_choice o && format_ok (format_seen st) o
    then parse_args argv
           {| namespace :=
                dict_set (dest o)
                  ((assignment o).2 (dict_get (dest o) (namespace st)))
                  (namespace st);
              format_seen := next_seen (format_seen st) o |}
    else Raise (SystemExit 2).
Proof.
  simpl. rewrite apply_option_step. by destruct (_ && _).
Qed.

Lemma overwrites o v :
  accumulates (dest o) = false → (assignment o).2 v = (assignment o).2 None.
Proof. by destruct o. Qed.

Lemma assigned_cons k o argv :
  assigned k (o :: argv)
  = if String.eqb (dest o) k then (assignment o).2 None :: assigned k argv
    else assigned k argv.
Proof. unfold assigned. simpl. by destruct (String.eqb (dest o) k). Qed.

Lemma parse_args_assigned k argv : ∀ st st',
  accumulates k = false →
  parse_args argv st = Ok st' →
  dict_get k (namespace st')
  = match last (assigned k argv) with
    | Some v => Some v
    | None => dict_get k (namespace st)
    end.
Proof.
  induction argv as [|o argv IH]; intros st st' Hk; [by intros [= <-]|].
  rewrite parse_args_cons. destruct (_ && _); [|done].
  intros Hparse. rewrite (IH _ _ Hk Hparse), assigned_cons. cbn [namespace].
  destruct (String.eqb (dest o) k) eqn:Hd.
  - apply String.eqb_eq in Hd as <-. rewrite last_cons.
    destruct (last (assigned (dest o) argv)); [done|].
    by rewrite dict_get_set_eq, (overwrites o).
  - apply String.eqb_neq in Hd.
    destruct (last (assigned k argv)); [done|].
    by rewrite dict_get_set_ne.
Qed.

Lemma parse_args_verbose argv : ∀ st st' n,
  parse_args argv st = Ok st' →
  dict_get "verbose" (namespace st) = Some (PInt n) →
  dict_get "verbose" (namespace st')
  = Some (PInt (n + Z.of_nat (length (List.filter is_verbose argv)))).
Proof.
  induction argv as [|o argv IH]; intros st st' n.
  - intros [= <-] ->. simpl. by rewrite Z.add_0_r.
  - rewrite parse_args_cons. destruct (_ && _); [|done].
    intros Hparse Hn.
    destruct (decide (dest o = "verbose")) as [Hd|Hd].
    + assert (o = OptVerbose) as -> by by destruct o.
      rewrite (IH _ _ (n + 1) Hparse).
      * cbn [List.filter is_verbose length]. do 2 f_equal. lia.
      * cbn [namespace dest assignment fst snd].
        by rewrite dict_get_set_eq, Hn.
    + rewrite (IH _ _ n Hparse).
      * by destruct o.
      * cbn [namespace]. by rewrite dict_get_set_ne.
Qed.

Lemma collected_append l x :
  append_action (Some (collected l)) x = collected (l ++ [x]).
Proof. by destruct l. Qed.

(** An [append] destination, given the options that feed it. *)
Lemma parse_args_collected k (sel : cli_option → option string) argv :
  (∀ o x, sel o = Some x →
     assignment o = (k, fun v => append_action v x)) →
  (∀ o, sel o = None → dest o ≠ k) →
  ∀ st st' l,
    parse_args argv st = Ok st' →
    dict_get k (namespace st) = Some (collected l) →
    dict_get k (namespace st') = Some (collected (l ++ omap sel argv)).
Proof.
  intros Hsome Hnone.
  induction argv as [|o argv IH]; intros st st' l.
  - intros [= <-] ->. simpl. by rewrite app_nil_r.
  - rewrite parse_args_cons. destruct (_ && _); [|done].
    intros Hparse Hl. simpl. destruct (sel o) as [x|] eqn:Ho.
    + rewrite (IH _ _ (l ++ [x]) Hparse).
      * by rewrite <- app_assoc.
      * unfold dest. rewrite (Hsome o x Ho). cbn [namespace fst snd].
        by rewrite dict_get_set_eq, Hl, collected_append.
    + rewrite (IH _ _ l Hparse); [done|].
      cbn [namespace]. rewrite dict_get_set_ne; [done|]. intros Heq.
      by apply (Hnone o Ho).
Qed.

(** X1: whatever the command line, an accepted parse leaves the same
    twenty destinations in the namespace, in the order the arguments
    are declared, each holding a value of the type its action stores. *)
Theorem X1_namespace_shape (argv : list cli_option) (args : pydict) :
  parse_command_line argv = Ok args →
  keys args
  = ["input"; "output"; "sequential"; "status_bugs"; "html_title";
     "analyze_headers"; "output_format"; "verbose"; "keep_empty";
     "report_failures"; "stats"; "internal_stats"; "maxloop"; "store_model";
     "constraints_model"; "clang"; "analyzer_config"; "plugins";
     "enable_checker"; "disable_checker"]
  ∧ ∀ k v, dict_get k args = Some v → has_type k v = true.
Proof.
  intros Hparse. destruct (parse_command_line_ok _ _ Hparse) as [Hk Ht].
  split; [by rewrite Hk|].
  intros k v Hget.
  assert (NoDup (keys args)) as Hnd by (rewrite Hk; apply defaults_NoDup).
  apply (dict_get_Some _ _ _ Hnd) in Hget.
  rewrite Forall_forall in Ht. apply (Ht (k, v) Hget).
Qed.

Lemma X1_namespace_shape_witness :
  ∃ args,
    parse_command_line [OptVerbose; OptLoadPlugin "p.so"; OptPlist] = Ok args
    ∧ length (keys args) = 20%nat
    ∧ has_type "plugins" (PList ["p.so"]) = true.
Proof.
  eexists. split; [reflexivity|].
  destruct (X1_namespace_shape [OptVerbose; OptLoadPlugin "p.so"; OptPlist]
              _ eq_refl) as [Hk Ht].
  split; [by rewrite Hk|]. apply Ht. reflexivity.
Defined.



(** X3: a destination that overwrites holds what the last option
    naming it on the command line assigns, and its declared default (or
    nothing, for a name the parser does not declare) when no option
    names it. *)
Theorem X3_last_occurrence_wins (argv : list cli_option) (args : pydict)
    (k : string) :
  parse_command_line argv = Ok args →
  accumulates k = false →
  dict_get k args
  = match last (assigned k argv) with
    | Some v => Some v
    | None => dict_get k defaults
    end.
Proof.
  unfold parse_command_line.
  destruct (parse_args argv _) as [st|] eqn:Hp; simpl; [|done].
  intros [= <-] Hk. by rewrite (parse_args_assigned k argv _ _ Hk Hp).
Qed.

Lemma X3_last_occurrence_wins_witness :
  ∃ args,
    parse_command_line
      [OptOutput "/a"; OptKeepEmpty; OptOutput "/b"; OptPlist] = Ok args
    ∧ dict_get "output" args = Some (PStr "/b")
    ∧ dict_get "keep_empty" args = Some (PBool true)
    ∧ dict_get "sequential" args = Some (PBool false).
Proof.
  eexists. split; [reflexivity|].
  split; [|split].
  - by rewrite (X3_last_occurrence_wins
                  [OptOutput "/a"; OptKeepEmpty; OptOutput "/b"; OptPlist]
                  _ "output" eq_refl eq_refl).
  - by rewrite (X3_last_occurrence_wins
                  [OptOutput "/a"; OptKeepEmpty; OptOutput "/b"; OptPlist]
                  _ "keep_empty" eq_refl eq_refl).
  - by rewrite (X3_last_occurrence_wins
                  [OptOutput "/a"; OptKeepEmpty; OptOutput "/b"; OptPlist]
                  _ "sequential" eq_refl eq_refl).
Defined.

(** X4: the verbosity in the namespace is the number of [-v] on the
    command line. *)
Theorem X4_verbose_counts (argv : list cli_option) (args : pydict) :
  parse_command_line argv = Ok args →
  dict_get "verbose" args
  = Some (PInt (Z.of_nat (length (List.filter is_verbose argv)))).
Proof.
  unfold parse_command_line.
  destruct (parse_args argv _) as [st|] eqn:Hp; simpl; [|done].
  intros [= <-]. by rewrite (parse_args_verbose argv _ _ 0 Hp).
Qed.

Lemma X4_verbose_counts_witness :
  ∃ args,
    parse_command_line [OptVerbose; OptStats; OptVerbose; OptVerbose] = Ok args
    ∧ dict_get "verbose" args = Some (PInt 3).
Proof.
  eexists. split; [reflexivity|].
  by rewrite (X4_verbose_counts [OptVerbose; OptStats; OptVerbose; OptVerbose]
                _ eq_refl).
Defined.

(** X5: the three list destinations hold [None] when their option does
    not occur, and otherwise the arguments of its occurrences in
    command-line order. *)
Theorem X5_lists_collect_in_order (argv : list cli_option) (args : pydict) :
  parse_command_line argv = Ok args →
  dict_get "plugins" args = Some (collected (omap plugin_of argv))
  ∧ dict_get "enable_checker" args = Some (collected (omap enabled_of argv))
  ∧ dict_get "disable_checker" args
    = Some (collected (omap disabled_of argv)).
Proof.
  unfold parse_command_line.
  destruct (parse_args argv _) as [st|] eqn:Hp; simpl; [|done].
  intros [= <-]. split; [|split].
  - apply (parse_args_collected "plugins" plugin_of argv) with (l := [])
      (st := {| namespace := defaults; format_seen := None |}); try done.
    + intros o x. destruct o; try done. by intros [= ->].
    + intros o. by destruct o.
  - apply (parse_args_collected "enable_checker" enabled_of argv)
      with (l := []) (st := {| namespace := defaults; format_seen := None |});
      try done.
    + intros o x. destruct o; try done. by intros [= ->].
    + intros o. by destruct o.
  - apply (parse_args_collected "disable_checker" disabled_of argv)
      with (l := []) (st := {| namespace := defaults; format_seen := None |});
      try done.
    + intros o x. destruct o; try done. by intros [= ->].
    + intros o. by destruct o.
Qed.

Lemma X5_lists_collect_in_order_witness :
  ∃ args,
    parse_command_line
      [OptEnableChecker "core"; OptLoadPlugin "a.so"; OptEnableChecker "unix"]
    = Ok args
    ∧ dict_get "enable_checker" args = Some (PList ["core"; "unix"])
    ∧ dict_get "disable_checker" args = Some PNone.
Proof.
  eexists. split; [reflexivity|].
  destruct (X5_lists_collect_in_order
              [OptEnableChecker "core"; OptLoadPlugin "a.so";
               OptEnableChecker "unix"] _ eq_refl) as (_ & He & Hd).
  split; [exact He|exact Hd].
Defined.

(** ** The translator, further *)

(** X6: the translator reads thirteen keys and nothing else, and takes
    a key whose value is [None] for an absent one: two dictionaries
    that agree on the non-[None] values of those keys translate alike,
    whatever else they hold. *)
Theorem X6_only_option_keys_matter (repr_list : list string → string)
    (args args' : pydict) :
  NoDup (keys args) → NoDup (keys args') →
  Forall (fun k => setting k args = setting k args') translator_keys →
  parameters_from_command_line repr_list args
  = parameters_from_command_line repr_list args'.
Proof.
  intros Hnd Hnd' Hsame. rewrite !parameters_closed_form by done.
  unfold translator_keys in Hsame.
  repeat (apply Forall_cons in Hsame as [? Hsame]).
  unfold translatable, typed, ordered_flags, emitted.
  repeat match goal with
         | H : setting _ args = setting _ args' |- _ => rewrite !H; clear H
         end.
  done.
Qed.

Lemma X6_only_option_keys_matter_witness :
  parameters_from_command_line sample_repr
    [("input", PStr "db.json"); ("store_model", PStr "basic");
     ("plugins", PNone); ("clang", PStr "/usr/bin/clang")]
  = parameters_from_command_line sample_repr [("store_model", PStr "basic")].
Proof.
  apply (X6_only_option_keys_matter sample_repr).
  - apply (bool_decide_unpack _). vm_compute. exact I.
  - apply (bool_decide_unpack _). vm_compute. exact I.
  - repeat constructor.
Defined.

Lemma assigned_not_none k argv v :
  accumulates k = false → v ∈ assigned k argv → is_none v = false.
Proof.
  intros Hk. induction argv as [|o argv IH]; [by rewrite elem_of_nil|].
  rewrite assigned_cons. destruct (String.eqb (dest o) k) eqn:Hd; [|done].
  rewrite elem_of_cons. intros [->|Hin]; [|by apply IH].
  apply String.eqb_eq in Hd as <-. by destruct o.
Qed.

Lemma parse_setting argv args k :
  parse_command_line argv = Ok args →
  accumulates k = false →
  setting k args
  = match last (assigned k argv) with
    | Some v => Some v
    | None => setting k defaults
    end.
Proof.
  unfold parse_command_line, setting.
  destruct (parse_args argv _) as [st|] eqn:Hp; simpl; [|done].
  intros [= <-] Hk. rewrite (parse_args_assigned k argv _ _ Hk Hp). simpl.
  destruct (last (assigned k argv)) as [v|] eqn:Hlast; [|done].
  by rewrite (assigned_not_none k argv v Hk (last_Some_elem_of _ _ Hlast)).
Qed.

Lemma parse_setting_list k (sel : cli_option → option string) flag argv args :
  dict_get k args = Some (collected (omap sel argv)) →
  emitted k (flag_pairs flag) args
  = flat_map (fun x => [PStr flag; PStr x]) (omap sel argv).
Proof.
  unfold emitted, setting. intros ->.
  destruct (omap sel argv) as [|x l]; [done|]. simpl.
  unfold flag_pairs. simpl. f_equal. f_equal.
  induction l as [|y l IH]; [done|]. simpl. by rewrite IH.
Qed.

(** X7: for every command line the parser takes, the translator's flags
    are, each after [-Xclang]: the store and constraint models and the
    three statistics flags (on every run), the loop bound and the output
    format, then the analyzer-config string if given, the progress flag
    from the second [-v] on, and the plugins and the enabled and
    disabled checkers in command-line order. *)
Theorem X7_flags_of_command_line (repr_list : list string → string)
    (argv : list cli_option) (args : pydict) :
  parse_command_line argv = Ok args →
  parameters_from_command_line repr_list args
  = Ok (pass_through (command_line_flags repr_list argv)).
Proof.
  intros Hparse. rewrite (parameters_of_parsed repr_list argv args Hparse).
  f_equal. f_equal.
  pose proof (parse_command_line_ok _ _ Hparse) as Hok.
  assert (dict_get "ubiviz" args = None) as Hubi.
  { apply dict_get_None. destruct Hok as [-> _].
    apply (bool_decide_unpack _). by vm_compute. }
  unfold parse_command_line in Hparse.
  destruct (parse_args argv _) as [st|] eqn:Hp; simpl in Hparse; [|done].
  injection Hparse as <-.
  pose proof (parse_args_verbose argv _ _ 0 Hp eq_refl) as Hverbose.
  pose proof (parse_args_collected "plugins" plugin_of argv) as Hplug.
  pose proof (parse_args_collected "enable_checker" enabled_of argv) as Hen.
  pose proof (parse_args_collected "disable_checker" disabled_of argv) as Hdis.
  specialize (Hplug ltac:(intros [] x; try done; by intros [= ->])
                ltac:(by intros []) _ _ [] Hp eq_refl).
  specialize (Hen ltac:(intros [] x; try done; by intros [= ->])
                ltac:(by intros []) _ _ [] Hp eq_refl).
  specialize (Hdis ltac:(intros [] x; try done; by intros [= ->])
                ltac:(by intros []) _ _ [] Hp eq_refl).
  simpl in Hplug, Hen, Hdis.
  assert (parse_command_line argv = Ok (namespace st)) as Hparse'.
  { unfold parse_command_line. by rewrite Hp. }
  unfold ordered_flags, command_line_flags.
  rewrite (parse_setting_list "plugins" plugin_of "-load" argv _ Hplug).
  rewrite (parse_setting_list "enable_checker" enabled_of
             "-analyzer-checker" argv _ Hen).
  rewrite (parse_setting_list "disable_checker" disabled_of
             "-analyzer-disable-checker" argv _ Hdis).
  unfold emitted.
  rewrite !(parse_setting argv _ _ Hparse') by done.
  rewrite Z.add_0_l in Hverbose.
  assert (setting "verbose" (namespace st)
          = Some (PInt (Z.of_nat (length (List.filter is_verbose argv)))))
    as -> by (unfold setting; by rewrite Hverbose).
  assert (setting "ubiviz" (namespace st) = None) as ->
    by (unfold setting; by rewrite Hubi).
  unfold value_of, progress_flag. simpl.
  destruct (last (assigned "store_model" argv)),
           (last (assigned "constraints_model" argv)),
           (last (assigned "internal_stats" argv)),
           (last (assigned "analyze_headers" argv)),
           (last (assigned "stats" argv)),
           (last (assigned "maxloop" argv)),
           (last (assigned "output_format" argv)),
           (last (assigned "analyzer_config" argv)),
           (2 <=? Z.of_nat (length (List.filter is_verbose argv)));
    simpl; by rewrite ?app_nil_r.
Qed.

Lemma X7_flags_of_command_line_witness :
  ∃ args,
    parse_command_line [OptVerbose; OptLoadPlugin "a.so"; OptVerbose; OptPlist]
    = Ok args
    ∧ parameters_from_command_line sample_repr args
      = Ok (pass_through
              [PStr "-analyzer-store=region";
               PStr "-analyzer-constraints=range";
               PStr "-analyzer-stats"; PStr "-analyzer-opt-analyze-headers";
               PStr "-analyzer-checker=debug.Stats";
               PStr "-analyzer-max-loop"; PStr "4";
               PStr "-analyzer-output=plist";
               PStr "-analyzer-display-progress";
               PStr "-load"; PStr "a.so"]).
Proof.
  eexists. split; [reflexivity|].
  by rewrite (X7_flags_of_command_line sample_repr
                [OptVerbose; OptLoadPlugin "a.so"; OptVerbose; OptPlist]
                _ eq_refl).
Defined.

(** ** The report directory, further *)

Lemma mkdtemp_from_Raise prefix suffix dir names : ∀ w e w',
  mkdtemp_from names dir prefix suffix w = (Raise e, w') →
  fs w' = fs w ∧ events w' = events w ∧ log w' = log w.
Proof.
  induction names as [|n names IH]; intros w e w'; simpl.
  - by intros [= _ <-].
  - destruct (mkdir _ (set_candidates names w)) as [[u|e1] w1] eqn:Hmk; [done|].
    apply mkdir_Raise in Hmk as ->.
    destruct e1 as [| |[] p| | |]; try (by intros [= _ <-]).
    by intros ?%IH.
Qed.

(** X8: an acquisition that fails leaves nothing behind: the file
    system, the trace and the log are as before. *)
Theorem X8_failed_acquisition_leaves_nothing (hint : pyval) (w w' : world)
    (e : exn) :
  ReportDirectory_create hint w = (Raise e, w') →
  fs w' = fs w ∧ events w' = events w ∧ log w' = log w.
Proof.
  unfold ReportDirectory_create. destruct (negb _).
  - destruct hint as [| | |p|]; try (by intros [= _ <-]).
    unfold bind, ret. destruct (mkdir p w) as [[u|e1] w1] eqn:Hmk; [done|].
    intros [= _ <-]. by apply mkdir_Raise in Hmk as ->.
  - unfold mkdtemp. apply mkdtemp_from_Raise.
Qed.

Lemma X8_failed_acquisition_leaves_nothing_witness :
  fs (ReportDirectory_create (PStr "/proj") sample_world).2 = sample_fs
  ∧ events (ReportDirectory_create (PInt 3) sample_world).2 = [].
Proof.
  split.
  - apply (X8_failed_acquisition_leaves_nothing (PStr "/proj") sample_world
             _ (OSError EEXIST "/proj")).
    by vm_compute.
  - apply (X8_failed_acquisition_leaves_nothing (PInt 3) sample_world
             _ TypeError).
    reflexivity.
Defined.

(** X9: the release step logs exactly one warning, built from the
    directory's name: the scan-view hint when the directory holds
    something, the kept notice when it is empty and kept, the removal
    notice when it is removed; only the removal adds to the trace. *)
Theorem X9_release_logs_one_warning (self : ReportDirectory) (w : world) :
  isdir (fs w) (rd_name self) = true →
  let w' := (ReportDirectory_exit self w).2 in
  log w' = log w ++ [LogMsg WARNING (release_message (fs w) self)]
  ∧ events w'
    = events w
      ++ (if dir_empty (fs w) (rd_name self)
             && negb (py_truthy (rd_keep self))
          then [EvRmdir (fs_key (rd_name self))] else []).
Proof.
  intros Hdir. unfold release_message.
  destruct (exit_cases self w Hdir)
    as [[He ->]|[(He & Hkeep & ->)|(He & Hkeep & ->)]];
    rewrite He, ?Hkeep; simpl; by rewrite ?app_nil_r.
Qed.

Lemma X9_release_logs_one_warning_witness :
  log (ReportDirectory_exit
         {| rd_name := "/tmp/beye-k3x9qa.out"; rd_keep := PBool true |}
         sample_world).2
  = [LogMsg WARNING
       "Report directory '/tmp/beye-k3x9qa.out' contans no report, but kept."].
Proof.
  destruct (X9_release_logs_one_warning
              {| rd_name := "/tmp/beye-k3x9qa.out"; rd_keep := PBool true |}
              sample_world) as [Hlog _]; [by vm_compute|].
  rewrite Hlog. by vm_compute.
Defined.

(** X10: the [with] block.  When acquisition fails the body does not
    run and the failure is the block's outcome.  When it succeeds and
    the directory is still there after the body, the release step runs
    on the world the body left and the block's outcome is the body's:
    its value, or the exception it raised.  When the directory is gone
    by then, the block raises [OSError] whatever the body returned. *)
Theorem X10_with_block {A : Type} (hint keep : pyval) (body : string → M A)
    (w : world) :
  (∀ e w1, ReportDirectory_init hint keep w = (Raise e, w1) →
     with_ReportDirectory hint keep body w = (Raise e, w1))
  ∧ (∀ self w1 r w2,
       ReportDirectory_init hint keep w = (Ok self, w1) →
       body (rd_name self) w1 = (r, w2) →
       (isdir (fs w2) (rd_name self) = true →
        (ReportDirectory_exit self w2).1 = Ok tt
        ∧ with_ReportDirectory hint keep body w
          = (r, (ReportDirectory_exit self w2).2))
       ∧ (isdir (fs w2) (rd_name self) = false →
          ∃ errno,
            with_ReportDirectory hint keep body w
            = (Raise (OSError errno (rd_name self)), w2))).
Proof.
  split.
  - intros e w1 Hinit. unfold with_ReportDirectory. by rewrite Hinit.
  - intros self w1 r w2 Hinit Hbody. unfold with_ReportDirectory.
    rewrite Hinit, Hbody. split; intros Hdir.
    + destruct (exit_cases self w2 Hdir)
        as [[_ ->]|[(_ & _ & ->)|(_ & _ & ->)]]; done.
    + unfold ReportDirectory_exit, bind, listdir. rewrite Hdir.
      destruct (path_exists _ _); by eexists.
Qed.

Lemma X10_with_block_witness :
  (with_ReportDirectory (PStr "/proj") (PBool false)
     (fun _ => ret 7) sample_world).1 = Raise (OSError EEXIST "/proj")
  ∧ (with_ReportDirectory (PStr "/tmp") (PBool false)
       (fun _ => raise (A:=Z) (KeyError "error_output")) sample_world).1
    = Raise (KeyError "error_output").
Proof.
  destruct (X10_with_block (PStr "/proj") (PBool false) (fun _ => ret 7)
              sample_world) as [Hfail _].
  destruct (X10_with_block (PStr "/tmp") (PBool false)
              (fun _ => raise (A:=Z) (KeyError "error_output"))
              sample_world) as [_ Hrun].
  split.
  - by rewrite (Hfail (OSError EEXIST "/proj") sample_world eq_refl).
  - destruct (Hrun {| rd_name := "/tmp/beye-w81mzp.out";
                      rd_keep := PBool false |}
                _ (Raise (KeyError "error_output")) _ eq_refl eq_refl)
      as [Hthere _].
    destruct Hthere as [_ ->]; [by vm_compute|]. reflexivity.
Defined.

(** ** The run, further *)






Section MainFacts.

Variable repr_list : list string → string.
Variable rstrip : string → string.
Variable run :
  dispatch_params → gmap string node → option analysis_result * gmap string node.
Variable generate_report :
  report_args → gmap string node → outcome Z * gmap string node.



End MainFacts.



(** X13: when the output directory cannot be acquired, [main] ends with
    the error of the acquisition and has done nothing: no pool, no
    dispatch, no report step, and the file system is as it was. *)
Theorem X13_acquisition_failure_aborts
    (repr_list : list string → string) (rstrip : string → string)
    (run : dispatch_params → gmap string node
           → option analysis_result * gmap string node)
    (generate_report : report_args → gmap string node
                       → outcome Z * gmap string node)
    (argv : list cli_option) (args : pydict) (w : world) (e : exn) :
  parse_command_line argv = Ok args →
  (ReportDirectory_create (dict_get_or_none "output" args) w).1 = Raise e →
  let r := main repr_list rstrip run generate_report argv w in
  r.1 = Raise e ∧ events r.2 = events w ∧ fs r.2 = fs w.
Proof.
  intros Hparse Hcreate.
  pose proof (parse_command_line_ok _ _ Hparse) as Hok.
  destruct (namespace_ok_get "verbose" args Hok) as (v & Hv & _);
    [key_in_defaults|].
  destruct (namespace_ok_get "output" args Hok) as (o & Ho & _);
    [key_in_defaults|].
  destruct (namespace_ok_get "keep_empty" args Hok) as (k & Hk & _);
    [key_in_defaults|].
  unfold dict_get_or_none in Hcreate. rewrite Ho in Hcreate.
  unfold main, main_body, bind, lift, dict_item. rewrite Hparse, Hv, Ho, Hk.
  cbv zeta. unfold with_ReportDirectory, ReportDirectory_init, bind.
  set (w0 := add_log _ (set_log_level _ w)).
  assert ((ReportDirectory_create o w0).1 = Raise e) as Hcreate0.
  { rewrite <- Hcreate. by apply create_frame. }
  destruct (ReportDirectory_create o w0) as [[name|e'] w1] eqn:Hc0;
    simpl in Hcreate0; [done|].
  injection Hcreate0 as ->. simpl.
  assert (∀ hint w w' e,
            ReportDirectory_create hint w = (Raise e, w') →
            fs w' = fs w ∧ events w' = events w) as Hnothing.
  { clear. intros hint w w' e. unfold ReportDirectory_create.
    destruct (negb _).
    - destruct hint as [| | |p|]; try (by intros [= _ <-]).
      unfold bind, ret. destruct (mkdir p w) as [[u|e1] w1] eqn:Hmk; [done|].
      intros [= _ <-]. by apply mkdir_Raise in Hmk as ->.
    - unfold mkdtemp. intros (? & ? & _)%mkdtemp_from_Raise. done. }
  destruct (Hnothing _ _ _ _ Hc0) as [-> ->]. done.
Qed.

Lemma X13_acquisition_failure_aborts_witness :
  let r := main sample_repr sample_rstrip sample_run (sample_report 2)
             [OptOutput "/proj"] sample_world in
  r.1 = Raise (OSError EEXIST "/proj") ∧ events r.2 = [] ∧ fs r.2 = sample_fs.
Proof.
  apply (X13_acquisition_failure_aborts sample_repr sample_rstrip sample_run
           (sample_report 2) [OptOutput "/proj"]
           (dict_set "output" (PStr "/proj") defaults) sample_world).
  - reflexivity.
  - by vm_compute.
Defined.

(** ** The common prefix, further *)

Lemma string_append_nil_r (s : string) : s +:+ "" = s.
Proof.
  induction s as [|c s IH]; [done|]. by rewrite string_append_cons, IH.
Qed.

Lemma string_prefix_refl s : string_prefix s s.
Proof. exists "". by rewrite string_append_nil_r. Qed.

Lemma string_prefix_trans s t u :
  string_prefix s t → string_prefix t u → string_prefix s u.
Proof.
  intros [r1 ->] [r2 ->]. exists (r1 +:+ r2). apply string_append_assoc.
Qed.

Lemma string_prefix_cons c s t :
  string_prefix s t → string_prefix (String c s) (String c t).
Proof. intros [r ->]. by exists r. Qed.

Lemma string_prefix_nil s : string_prefix "" s.
Proof. by exists s. Qed.

Lemma commonprefix_l a : ∀ b, string_prefix (commonprefix a b) a.
Proof.
  induction a as [|c a IH]; intros [|d b]; simpl;
    try apply string_prefix_nil.
  destruct (Ascii.eqb c d); [|apply string_prefix_nil].
  apply string_prefix_cons, IH.
Qed.

Lemma commonprefix_comm a : ∀ b, commonprefix a b = commonprefix b a.
Proof.
  induction a as [|c a IH]; intros [|d b]; simpl; try done.
  rewrite (Ascii.eqb_sym d c). destruct (Ascii.eqb c d) eqn:Hcd; [|done].
  apply Ascii.eqb_eq in Hcd as ->. by rewrite IH.
Qed.

Lemma commonprefix_r a b : string_prefix (commonprefix a b) b.
Proof. rewrite commonprefix_comm. apply commonprefix_l. Qed.

Lemma commonprefix_idemp a : commonprefix a a = a.
Proof.
  induction a as [|c a IH]; simpl; [done|].
  by rewrite Ascii.eqb_refl, IH.
Qed.

Lemma commonprefix_assoc a : ∀ b c,
  commonprefix (commonprefix a b) c = commonprefix a (commonprefix b c).
Proof.
  induction a as [|x a IH]; intros [|y b] [|z c]; simpl; try done.
  - by destruct (Ascii.eqb x y).
  - destruct (Ascii.eqb x y) eqn:Hxy; simpl.
    + apply Ascii.eqb_eq in Hxy as ->.
      destruct (Ascii.eqb y z); simpl; by rewrite ?Ascii.eqb_refl, ?IH.
    + destruct (Ascii.eqb y z); simpl; by rewrite ?Hxy.
Qed.

Lemma head_slash_prefix p : string_prefix (head_slash p) p.
Proof.
  induction p as [|c p IH]; simpl; [apply string_prefix_refl|].
  destruct (head_slash p) as [|d h] eqn:Hh.
  - destruct (Ascii.eqb c slash); [|apply string_prefix_nil].
    by apply string_prefix_cons.
  - by apply string_prefix_cons.
Qed.

Lemma rstrip_slash_prefix s : string_prefix (rstrip_slash s) s.
Proof.
  induction s as [|c s IH]; simpl; [apply string_prefix_refl|].
  destruct (rstrip_slash s) as [|d r] eqn:Hr.
  - destruct (Ascii.eqb c slash); [apply string_prefix_nil|].
    by apply string_prefix_cons.
  - by apply string_prefix_cons.
Qed.

Lemma dirname_prefix p : string_prefix (dirname p) p.
Proof.
  unfold dirname. destruct (_ && _).
  - eapply string_prefix_trans;
      [apply rstrip_slash_prefix|apply head_slash_prefix].
  - apply head_slash_prefix.
Qed.

Lemma common_step_prefix files : ∀ acc r,
  fold_left common_step files acc = Some r →
  (∀ a, acc = Some a → string_prefix r a)
  ∧ ∀ f, f ∈ files → string_prefix r f.
Proof.
  induction files as [|x files IH]; intros acc r; simpl.
  - intros ->. split; [|by intros f ?%elem_of_nil].
    intros a [= <-]. apply string_prefix_refl.
  - intros (Hacc & Hfiles)%IH. split.
    + intros a ->. simpl in Hacc.
      eapply string_prefix_trans; [by apply Hacc|apply commonprefix_l].
    + intros f [->|Hin]%elem_of_cons; [|by apply Hfiles].
      destruct acc as [a|]; simpl in Hacc.
      * eapply string_prefix_trans; [by apply Hacc|apply commonprefix_r].
      * by apply Hacc.
Qed.

Lemma common_step_comm acc a b :
  common_step (common_step acc a) b = common_step (common_step acc b) a.
Proof.
  destruct acc as [r|]; simpl; f_equal.
  - by rewrite !commonprefix_assoc, (commonprefix_comm a b).
  - apply commonprefix_comm.
Qed.

Lemma common_step_Permutation files files' :
  files ≡ₚ files' →
  ∀ acc, fold_left common_step files acc = fold_left common_step files' acc.
Proof.
  induction 1 as [|x l l' _ IH|x y l|l1 l2 l3 _ IH1 _ IH2]; intros acc; simpl.
  - done.
  - apply IH.
  - by rewrite common_step_comm.
  - by rewrite IH1, IH2.
Qed.

Lemma common_step_same d files : ∀ acc,
  (∀ f, f ∈ files → f = d) → (acc = None ∨ acc = Some d) → files ≠ [] ∨ acc = Some d →
  fold_left common_step files acc = Some d.
Proof.
  induction files as [|x files IH]; intros acc Hall Hacc Hne; simpl.
  - by destruct Hne.
  - assert (x = d) as -> by (apply Hall; by left).
    apply IH.
    + intros f Hf. apply Hall. by right.
    + right. destruct Hacc as [->| ->]; simpl; [done|].
      by rewrite commonprefix_idemp.
    + right. destruct Hacc as [->| ->]; simpl; [done|].
      by rewrite commonprefix_idemp.
Qed.

Lemma get_prefix_from_loaded p w db :
  database (fs w) p = Some db →
  get_prefix_from (PStr p) w
  = common (map (fun entry => dirname (ce_file entry)) db) w.
Proof.
  unfold database, get_prefix_from, filenames, bind, open_read.
  destruct (String.eqb p ""); [done|].
  destruct (fs w !! fs_key p) as [[|[db'|]]|]; try done. by intros [= ->].
Qed.

Lemma common_fold files w :
  common files w
  = match fold_left common_step files None with
    | None => (Ok "", w)
    | Some r => if negb (isdir (fs w) r) then (Ok (dirname r), w) else (Ok r, w)
    end.
Proof. reflexivity. Qed.

(** X14: on a database that loads, the resolver returns, without
    changing anything, a string that is a leading part, character by
    character, of the directory of every entry's source file. *)
Theorem X14_prefix_of_every_directory (p : string) (w : world)
    (db : list compilation_entry) :
  database (fs w) p = Some db →
  ∃ r, get_prefix_from (PStr p) w = (Ok r, w)
       ∧ ∀ entry, entry ∈ db → string_prefix r (dirname (ce_file entry)).
Proof.
  intros Hdb. rewrite (get_prefix_from_loaded p w db Hdb), common_fold.
  destruct (fold_left common_step _ None) as [r|] eqn:Hfold.
  - destruct (common_step_prefix _ _ _ Hfold) as [_ Hall].
    assert (∀ entry, entry ∈ db → string_prefix r (dirname (ce_file entry)))
      as Hdirs.
    { intros entry Hin. apply Hall, list_elem_of_fmap. by exists entry. }
    destruct (negb _).
    + eexists. split; [done|]. intros entry Hin.
      eapply string_prefix_trans; [apply dirname_prefix|by apply Hdirs].
    + eexists. split; [done|]. apply Hdirs.
  - eexists. split; [done|]. intros entry _. apply string_prefix_nil.
Qed.

Lemma X14_prefix_of_every_directory_witness :
  ∃ r, get_prefix_from (PStr "compile_commands.json") sample_world
       = (Ok r, sample_world)
       ∧ string_prefix r "/proj/lib" ∧ string_prefix r "/proj/libfoo".
Proof.
  destruct (X14_prefix_of_every_directory "compile_commands.json" sample_world
              [lib_a; libfoo_b]) as (r & Hr & Hall); [by vm_compute|].
  exists r. split; [exact Hr|]. split.
  - apply (Hall lib_a). by left.
  - apply (Hall libfoo_b). right. by left.
Defined.

(** X15: when every entry's source file lies in one and the same
    directory, the resolver returns that directory if it exists on
    this machine, and its parent otherwise. *)
Theorem X15_single_directory (p d : string) (w : world)
    (db : list compilation_entry) :
  database (fs w) p = Some db →
  db ≠ [] →
  (∀ entry, entry ∈ db → dirname (ce_file entry) = d) →
  get_prefix_from (PStr p) w
  = (Ok (if isdir (fs w) d then d else dirname d), w).
Proof.
  intros Hdb Hne Hall. rewrite (get_prefix_from_loaded p w db Hdb), common_fold.
  rewrite (common_step_same d).
  - by destruct (isdir (fs w) d).
  - intros f (entry & -> & Hin)%list_elem_of_fmap. by apply Hall.
  - by left.
  - left. by destruct db.
Qed.

Lemma X15_single_directory_witness :
  get_prefix_from (PStr "one.json")
    (set_fs (<["one.json" := File (Some [lib_a; lib_a])]> sample_fs)
       sample_world)
  = (Ok "/proj/lib",
     set_fs (<["one.json" := File (Some [lib_a; lib_a])]> sample_fs)
       sample_world).
Proof.
  rewrite (X15_single_directory "one.json" "/proj/lib" _ [lib_a; lib_a]).
  - by vm_compute.
  - by vm_compute.
  - discriminate.
  - intros entry Hin. apply elem_of_cons in Hin as [->|Hin]; [reflexivity|].
    apply elem_of_cons in Hin as [->|Hin]; [reflexivity|].
    by apply elem_of_nil in Hin.
Defined.

(** X16: the result does not depend on the order of the entries: two
    databases holding the same entries in different orders resolve to
    the same prefix. *)
Theorem X16_order_of_entries_irrelevant (p p' : string) (w : world)
    (db db' : list compilation_entry) :
  database (fs w) p = Some db →
  database (fs w) p' = Some db' →
  db ≡ₚ db' →
  get_prefix_from (PStr p) w = get_prefix_from (PStr p') w.
Proof.
  intros Hdb Hdb' Hperm.
  rewrite (get_prefix_from_loaded p w db Hdb),
          (get_prefix_from_loaded p' w db' Hdb'), !common_fold.
  rewrite (common_step_Permutation
             (map (fun entry => dirname (ce_file entry)) db)
             (map (fun entry => dirname (ce_file entry)) db')); [done|].
  by apply Permutation_map.
Qed.

Lemma X16_order_of_entries_irrelevant_witness :
  let w := set_fs (<["swapped.json" := File (Some [libfoo_b; lib_a])]> sample_fs)
             sample_world in
  get_prefix_from (PStr "compile_commands.json") w
  = get_prefix_from (PStr "swapped.json") w.
Proof.
  intros w.
  apply (X16_order_of_entries_irrelevant "compile_commands.json"
           "swapped.json" w [lib_a; libfoo_b] [libfoo_b; lib_a]).
  - by vm_compute.
  - by vm_compute.
  - apply perm_swap.
Defined.

(** ** The deduplicator, further *)

Section DeduplicatorState.

Context {E K : Type} `{Countable K}.
Implicit Types (p : predicate_object (E:=E) (K:=K)) (entries : list E).

Lemma asked_unique entries : ∀ p, unique (asked p entries) = unique p.
Proof.
  induction entries as [|e entries IH]; intros p; [done|].
  simpl. by rewrite IH, predicate_unique.
Qed.

Lemma asked_state entries : ∀ p,
  state (asked p entries) = state p ∪ list_to_set (unique p <$> entries).
Proof.
  induction entries as [|e entries IH]; intros p; simpl.
  - apply set_eq. intros k. rewrite elem_of_union, elem_of_empty. tauto.
  - rewrite IH, predicate_unique, predicate_state. apply set_eq. intros k.
    rewrite !elem_of_union, elem_of_singleton. tauto.
Qed.

Lemma first_occurrences_count entries : ∀ p,
  (length (first_occurrences p entries) + size (state p))%nat
  = size (state (asked p entries)).
Proof.
  induction entries as [|e entries IH]; intros p; [done|].
  rewrite first_occurrences_cons, predicate_answer. simpl.
  rewrite <- IH, predicate_state.
  case_bool_decide as Hin; simpl.
  - f_equal. f_equal. apply set_eq. intros k.
    rewrite elem_of_union, elem_of_singleton. split; [tauto|].
    intros [?| ->]; done.
  - rewrite size_union, size_singleton; [lia|].
    intros k Hk ->%elem_of_singleton. done.
Qed.

Lemma first_occurrences_seen again : ∀ p,
  (∀ e, e ∈ again → unique p e ∈ state p) →
  first_occurrences p again = [].
Proof.
  induction again as [|e again IH]; intros p Hseen; [done|].
  rewrite first_occurrences_cons, predicate_answer.
  rewrite bool_decide_eq_true_2 by (apply Hseen; by left).
  apply IH. intros e' He'. rewrite predicate_unique, predicate_state.
  apply elem_of_union. left. apply Hseen. by right.
Qed.

End DeduplicatorState.

(** X17: after a pass over a sequence the predicate's state is exactly
    the set of identities of the sequence, and the records it let
    through are as many as that set has elements. *)
Theorem X17_state_is_the_identities_seen {E K : Type} `{Countable K}
    (method : E → K) (entries : list E) :
  let p := duplicate_check method in
  state (asked p entries) = list_to_set (method <$> entries)
  ∧ length (first_occurrences p entries) = size (state (asked p entries)).
Proof.
  intros p. split.
  - rewrite asked_state. simpl. apply set_eq. intros k.
    rewrite elem_of_union, elem_of_empty. tauto.
  - rewrite <- first_occurrences_count. subst p.
    change (state (duplicate_check method)) with (∅ : gset K).
    rewrite size_empty. lia.
Qed.

(** X18: the state outlives the pass: asked again about records whose
    identities it has seen, the same predicate lets none of them
    through; in particular a second pass over the same sequence keeps
    nothing. *)
Theorem X18_second_pass_keeps_nothing {E K : Type} `{Countable K}
    (method : E → K) (entries again : list E) :
  (∀ e, e ∈ again → method e ∈ method <$> entries) →
  first_occurrences (asked (duplicate_check method) entries) again = [].
Proof.
  intros Hseen. apply first_occurrences_seen. intros e He.
  rewrite asked_unique, asked_state. simpl.
  apply elem_of_union. right. apply elem_of_list_to_set. by apply Hseen.
Qed.

Lemma X18_second_pass_keeps_nothing_witness :
  first_occurrences
    (asked (duplicate_check (fun x : Z => x mod 3)) [1; 2; 4]) [4; 5; 1]
  = [].
Proof.
  apply X18_second_pass_keeps_nothing. intros e He.
  repeat (apply elem_of_cons in He as [->|He];
          [apply (bool_decide_unpack _); by vm_compute|]).
  by apply elem_of_nil in He.
Defined.

(** ** [libscanbuild] *)

(** X19: the default temporary directory is the value of [TMPDIR] when
    it is set (an empty value included), whatever [TEMP] and [TMP]
    hold; no other variable of the environment has a say; and with
    none of the three set it is [/tmp]. *)
Theorem X19_tempdir_precedence (env : gmap string string) :
  (∀ v, libscanbuild.tempdir (<["TMPDIR" := v]> env) = v)
  ∧ (∀ v, env !! "TMPDIR" = None →
          libscanbuild.tempdir (<["TEMP" := v]> env) = v)
  ∧ (∀ k v, k ≠ "TMPDIR" → k ≠ "TEMP" → k ≠ "TMP" →
            libscanbuild.tempdir (<[k := v]> env) = libscanbuild.tempdir env)
  ∧ (env !! "TMPDIR" = None → env !! "TEMP" = None → env !! "TMP" = None →
     libscanbuild.tempdir env = "/tmp").
Proof.
  unfold libscanbuild.tempdir, libscanbuild.getenv. split; [|split; [|split]].
  - intros v. by rewrite lookup_insert_eq.
  - intros v Htmpdir. rewrite lookup_insert_ne by done.
    by rewrite Htmpdir, lookup_insert_eq.
  - intros k v H1 H2 H3. by rewrite !lookup_insert_ne.
  - by intros -> -> ->.
Qed.

Lemma X19_tempdir_precedence_witness :
  libscanbuild.tempdir (<["TEMP" := "/scratch"]> ∅) = "/scratch"
  ∧ libscanbuild.tempdir (∅ : gmap string string) = "/tmp".
Proof.
  destruct (X19_tempdir_precedence ∅) as (_ & Htemp & _ & Hnone).
  split; [by apply Htemp|by apply Hnone].
Defined.

(** X20: the logging level set up for a verbosity is never negative,
    is at most [WARNING] for a verbosity that is not negative, is 0
    from verbosity 3 on, and never rises when the verbosity does; the
    program name in the format is the base name of [sys.argv[0]]. *)
Theorem X20_logging_level_bounds (argv0 : string) (v v' : Z) :
  let level x := (libscanbuild.initialize_logging argv0 x).2 in
  0 ≤ level v
  ∧ (0 ≤ v → level v ≤ WARNING)
  ∧ (3 ≤ v → level v = 0)
  ∧ (v ≤ v' → level v' ≤ level v)
  ∧ string_prefix (basename argv0) (libscanbuild.initialize_logging argv0 v).1.
Proof.
  unfold libscanbuild.initialize_logging, WARNING. cbn [fst snd].
  repeat split; try lia.
  destruct (3 <=? v); by eexists.
Qed.

Lemma X20_logging_level_bounds_witness :
  (libscanbuild.initialize_logging "/usr/bin/scan-build" 1).2 ≤ 30
  ∧ (libscanbuild.initialize_logging "/usr/bin/scan-build" 4).2 = 0
  ∧ string_prefix "scan-build"
      (libscanbuild.initialize_logging "/usr/bin/scan-build" 4).1.
Proof.
  destruct (X20_logging_level_bounds "/usr/bin/scan-build" 1 4)
    as (_ & Hle & _ & _ & _).
  destruct (X20_logging_level_bounds "/usr/bin/scan-build" 4 4)
    as (_ & _ & Hzero & _ & Hname).
  split; [apply Hle; lia|]. split; [apply Hzero; lia|exact Hname].
Defined.

(** X21: the level [beye] derives from the number of [-v] and the level
    [libscanbuild] sets up for the same number agree exactly for 0, 1
    and 2. *)
Theorem X21_levels_agree_up_to_two
    (argv0 : string) (v : Z) :
  from_number_to_level (PInt v) = (libscanbuild.initialize_logging argv0 v).2
  ↔ 0 ≤ v ≤ 2.
Proof.
  unfold from_number_to_level, py_eq_int, libscanbuild.initialize_logging,
    WARNING, INFO, DEBUG. cbn [snd].
  destruct (0 =? v) eqn:H0; [apply Z.eqb_eq in H0; lia|].
  destruct (1 =? v) eqn:H1; [apply Z.eqb_eq in H1; lia|].
  destruct (2 =? v) eqn:H2; [apply Z.eqb_eq in H2; lia|].
  apply Z.eqb_neq in H0, H1, H2. lia.
Qed.

(** ** Set-up failures, and the logging level *)

(** X22: with the database named by a string, [run_analyzer] dispatches
    nothing and leaves the file system alone whenever the set-up fails:
    the database does not load, the flags do not translate, or the host
    identification cannot be had.  The call ends in an exception. *)
Theorem X22_no_dispatch_without_setup
    (repr_list : list string → string) (rstrip : string → string)
    (run : dispatch_params → gmap string node
           → option analysis_result * gmap string node)
    (args : pydict) (out_dir p : string) (w : world) :
  dict_get "input" args = Some (PStr p) →
  database (fs w) p = None
  ∨ (∃ e, parameters_from_command_line repr_list args = Raise e)
  ∨ uname_out w = None →
  let r := run_analyzer repr_list rstrip run args out_dir w in
  (∃ e, r.1 = Raise e)
  ∧ dispatches (events r.2) = dispatches (events w)
  ∧ fs r.2 = fs w.
Proof.
  intros Hin Hfail.
  unfold run_analyzer, bind, lift, require, dict_in, dict_item, ret.
  rewrite Hin. destruct (dict_get "sequential" args) as [s|];
    [|split; [by eexists|done]].
  unfold open_read, database in *.
  destruct (String.eqb p ""); [split; [by eexists|done]|].
  destruct (fs w !! fs_key p) as [[|[db|]]|];
    try (split; [by eexists|done]).
  - simpl. unfold common_params, bind, lift, dict_item, uname, ret.
    destruct (dict_get "clang" args) as [c|];
      [|split; [by eexists|]; unfold dispatches; simpl;
        rewrite omap_app; simpl; by rewrite app_nil_r].
    destruct (parameters_from_command_line repr_list args) as [flags|e] eqn:Hf;
      simpl;
      [|split; [by eexists|]; unfold dispatches; simpl;
        rewrite omap_app; simpl; by rewrite app_nil_r].
    destruct (uname_out w) as [u|] eqn:Hu.
    + destruct Hfail as [|[[e He]|]]; done.
    + split; [by eexists|]. unfold dispatches. simpl.
      rewrite omap_app. simpl. by rewrite app_nil_r.
  - simpl. split; [by eexists|]. unfold dispatches. simpl.
    rewrite omap_app. simpl. by rewrite app_nil_r.
Qed.

Lemma X22_no_dispatch_without_setup_witness :
  let w := set_fs sample_fs
             {| fs := sample_fs; tempdir := "/tmp"; candidates := [];
                uname_out := None; log_level := WARNING; log := [];
                events := [] |} in
  let r := run_analyzer sample_repr sample_rstrip sample_run defaults
             "/tmp/out" w in
  r.1 = Raise CalledProcessError ∧ dispatches (events r.2) = [].
Proof.
  intros w r.
  destruct (X22_no_dispatch_without_setup sample_repr sample_rstrip sample_run
              defaults "/tmp/out" "compile_commands.json" w eq_refl)
    as (_ & Hd & _).
  - right. right. reflexivity.
  - split; [by vm_compute|exact Hd].
Defined.

Section Level.

Lemma keeps_level_ret {A} (a : A) : keeps_level (ret a).
Proof. by intros w. Qed.

Lemma keeps_level_raise {A} e : keeps_level (raise (A:=A) e).
Proof. by intros w. Qed.

Lemma keeps_level_lift {A} (o : outcome A) : keeps_level (lift o).
Proof. by intros w. Qed.

Lemma keeps_level_bind {A B} (m : M A) (k : A → M B) :
  keeps_level m → (∀ a, keeps_level (k a)) → keeps_level (bind m k).
Proof.
  intros Hm Hk w. unfold bind. specialize (Hm w).
  destruct (m w) as [[a|e] w1]; simpl in *; [|done]. by rewrite Hk.
Qed.

Lemma keeps_level_mkdir p : keeps_level (mkdir p).
Proof.
  intros w. unfold mkdir. destruct (String.eqb _ _); [done|].
  destruct (bool_decide _); [done|].
  destruct (_ || _); [done|]. by destruct (path_exists _ _).
Qed.

Lemma keeps_level_mkdtemp_from names dir prefix suffix :
  keeps_level (mkdtemp_from names dir prefix suffix).
Proof.
  induction names as [|n names IH]; intros w; simpl; [done|].
  pose proof (keeps_level_mkdir (path_join dir (prefix +:+ n +:+ suffix))
                (set_candidates names w)) as Hmk.
  destruct (mkdir _ _) as [[u|e] w1]; simpl in *; [done|].
  destruct e as [| |[] p| | |]; simpl; try done. by rewrite IH.
Qed.

Lemma keeps_level_init hint keep : keeps_level (ReportDirectory_init hint keep).
Proof.
  apply keeps_level_bind; [|intros; apply keeps_level_ret].
  unfold ReportDirectory_create. destruct (negb _).
  - destruct hint; try apply keeps_level_raise.
    apply keeps_level_bind; [apply keeps_level_mkdir|].
    intros; apply keeps_level_ret.
  - intros w. apply keeps_level_mkdtemp_from.
Qed.

Lemma keeps_level_exit self : keeps_level (ReportDirectory_exit self).
Proof.
  intros w. unfold ReportDirectory_exit, bind, listdir.
  destruct (isdir (fs w) (rd_name self)) eqn:Hdir;
    [|by destruct (path_exists _ _)].
  destruct (children _ _); simpl; [|done].
  destruct (py_truthy _); simpl; [done|].
  unfold rmdir. rewrite Hdir. simpl. by destruct (children _ _).
Qed.

Lemma keeps_level_with {A} hint keep (body : string → M A) :
  (∀ name, keeps_level (body name)) →
  keeps_level (with_ReportDirectory hint keep body).
Proof.
  intros Hbody w. unfold with_ReportDirectory.
  pose proof (keeps_level_init hint keep w) as Hinit.
  destruct (ReportDirectory_init hint keep w) as [[self|e] w1];
    simpl in *; [|done].
  pose proof (Hbody (rd_name self) w1) as Hb.
  destruct (body (rd_name self) w1) as [r w2]; simpl in *.
  pose proof (keeps_level_exit self w2) as Hexit.
  destruct (ReportDirectory_exit self w2) as [[u|e] w3]; simpl in *; congruence.
Qed.

Lemma keeps_level_open_read path : keeps_level (open_read path).
Proof.
  intros w. unfold open_read. destruct path as [| | |p|]; try done.
  destruct (String.eqb p ""); [done|]. by destruct (fs w !! fs_key p) as [[]|].
Qed.

Lemma keeps_level_json_load h : keeps_level (json_load h).
Proof. destruct h; [apply keeps_level_ret|apply keeps_level_raise]. Qed.

Lemma keeps_level_get_prefix_from db : keeps_level (get_prefix_from db).
Proof.
  unfold get_prefix_from, filenames.
  apply keeps_level_bind.
  - apply keeps_level_bind; [apply keeps_level_open_read|intros h].
    apply keeps_level_bind; [apply keeps_level_json_load|intros].
    apply keeps_level_ret.
  - intros files w. unfold common. destruct (fold_left _ _ _); [|done].
    by destruct (negb _).
Qed.

Variable repr_list : list string → string.
Variable rstrip : string → string.
Variable run :
  dispatch_params → gmap string node → option analysis_result * gmap string node.
Variable generate_report :
  report_args → gmap string node → outcome Z * gmap string node.

Lemma keeps_level_log_lines lines : keeps_level (log_lines rstrip lines).
Proof.
  induction lines as [|l lines IH]; simpl; [apply keeps_level_ret|].
  apply keeps_level_bind; [by intros w|done].
Qed.

Lemma keeps_level_analyze_all work :
  keeps_level (analyze_all rstrip run work).
Proof.
  induction work as [|p work IH]; simpl; [apply keeps_level_ret|].
  apply keeps_level_bind.
  - intros w. unfold dispatch. by destruct (run p (fs w)).
  - intros current. apply keeps_level_bind; [|done].
    unfold consume. destruct current as [[[[[lines|] code]|]]|]; simpl;
      auto using keeps_level_log_lines, keeps_level_raise, keeps_level_ret.
Qed.

Lemma keeps_level_require ks args : keeps_level (require ks args).
Proof.
  induction ks as [|k ks IH]; simpl; [apply keeps_level_ret|].
  destruct (dict_in k args); [done|apply keeps_level_raise].
Qed.

Lemma keeps_level_run_analyzer args out_dir :
  keeps_level (run_analyzer repr_list rstrip run args out_dir).
Proof.
  unfold run_analyzer.
  apply keeps_level_bind; [apply keeps_level_require|intros _].
  apply keeps_level_bind; [apply keeps_level_lift|intros input].
  apply keeps_level_bind; [apply keeps_level_open_read|intros handle].
  apply keeps_level_bind; [apply keeps_level_lift|intros sequential].
  apply keeps_level_bind; [by intros w|intros _].
  apply keeps_level_bind; [apply keeps_level_json_load|intros db].
  apply keeps_level_bind; [|intros const; apply keeps_level_analyze_all].
  unfold common_params.
  apply keeps_level_bind; [apply keeps_level_lift|intros clang].
  apply keeps_level_bind; [apply keeps_level_lift|intros flags].
  apply keeps_level_bind; [|intros; apply keeps_level_ret].
  intros w. unfold uname. by destruct (uname_out w).
Qed.

Lemma keeps_level_report ra : keeps_level (report generate_report ra).
Proof. intros w. unfold report. by destruct (generate_report ra (fs w)). Qed.

End Level.

(** X23: for every command line the parser takes, the logging level at
    the end of [main], however the run ends, is the one the number of
    [-v] selects: [WARNING] for none, [INFO] for one, [DEBUG] for two,
    5 beyond.  Nothing in the run changes it afterwards. *)
Theorem X23_logging_level_of_run
    (repr_list : list string → string) (rstrip : string → string)
    (run : dispatch_params → gmap string node
           → option analysis_result * gmap string node)
    (generate_report : report_args → gmap string node
                       → outcome Z * gmap string node)
    (argv : list cli_option) (args : pydict) (w : world) :
  parse_command_line argv = Ok args →
  log_level (main repr_list rstrip run generate_report argv w).2
  = from_number_to_level
      (PInt (Z.of_nat (length (List.filter is_verbose argv)))).
Proof.
  intros Hparse.
  assert (dict_get "verbose" args
          = Some (PInt (Z.of_nat (length (List.filter is_verbose argv)))))
    as Hverbose.
  { unfold parse_command_line in Hparse.
    destruct (parse_args argv _) as [st|] eqn:Hp; simpl in Hparse; [|done].
    injection Hparse as <-.
    by rewrite (parse_args_verbose argv _ _ 0 Hp eq_refl), Z.add_0_l. }
  unfold main, bind, lift. rewrite Hparse.
  unfold main_body, bind at 1, lift, dict_item. rewrite Hverbose.
  set (level := from_number_to_level _).
  unfold bind at 1. unfold bind at 1.
  match goal with
  | |- log_level (?m ?w0).2 = _ =>
      transitivity (log_level w0); [|done];
      assert (keeps_level m) as Hkeep; [|apply Hkeep]
  end.
  apply keeps_level_bind; [apply keeps_level_lift|intros output].
  apply keeps_level_bind; [apply keeps_level_lift|intros keep_empty].
  apply keeps_level_with. intros name.
  apply keeps_level_bind; [apply keeps_level_run_analyzer|intros _].
  apply keeps_level_bind; [|intros; apply keeps_level_ret].
  destruct (needs_report_file args); [|apply keeps_level_ret].
  apply keeps_level_bind; [apply keeps_level_lift|intros sequential].
  apply keeps_level_bind; [apply keeps_level_lift|intros input].
  apply keeps_level_bind; [apply keeps_level_get_prefix_from|intros prefix].
  apply keeps_level_bind; [apply keeps_level_lift|intros clang].
  apply keeps_level_bind; [apply keeps_level_lift|intros html_title].
  apply keeps_level_report.
Qed.

Lemma X23_logging_level_of_run_witness :
  log_level (main sample_repr sample_rstrip sample_run (sample_report 2)
               [OptVerbose; OptInput "missing.json"; OptVerbose]
               sample_world).2 = DEBUG.
Proof.
  by rewrite (X23_logging_level_of_run sample_repr sample_rstrip sample_run
                (sample_report 2)
                [OptVerbose; OptInput "missing.json"; OptVerbose]
                _ sample_world eq_refl).
Defined.
